(** * Inventory service (app.js): a shallow embedding of the request handlers

    The service keeps a process-wide array [inventory], mirrors it into
    [inventory.json] after each mutation and stores uploaded photos as files
    of a [photos/] directory.  This development embeds

    - the JavaScript builtins the handlers call ([trim], [includes],
      [Number], [String], truthiness, [path.basename], [path.extname]);
    - the state the handlers touch: the array, the snapshot file and the
      photo directory;
    - the handlers themselves, in a small state-and-exception monad that
      also records the file-system effects in the order they happen;

    and then proves the properties of the inventory manager.

    Modelling decisions.
    - A JavaScript string is its sequence of UTF-16 code units.
    - Item ids are integers ([Z]).  Numbers are taken at their exact value:
      the rounding of IEEE binary64 is not represented, so the model agrees
      with the program for ids below 2^53 and id texts of at most 15
      significant digits.
    - The snapshot file is represented by the item sequence that
      [JSON.stringify] was given.
    - One request is served at a time; the interleaving of two handlers at
      their [await] points is not represented. *)

From Stdlib Require Import ZArith NArith List Bool String Ascii Lia Decimal DecimalString DecimalPos.
From stdpp Require Import base option list gmap sorting.

Open Scope Z_scope.

(** ** JavaScript values *)

Module Js.

(** A string: UTF-16 code units. *)
Definition jsstring := list N.

(** An ASCII literal of the source. *)
Definition lit (s : string) : jsstring := map N_of_ascii (list_ascii_of_string s).
Arguments lit : simpl never.

(** WhiteSpace and LineTerminator code points of ECMAScript, the ones
    [String.prototype.trim] strips. *)
Definition white_space : list N :=
  [9; 10; 11; 12; 13; 32; 160; 5760;
   8192; 8193; 8194; 8195; 8196; 8197; 8198; 8199; 8200; 8201; 8202;
   8232; 8233; 8239; 8287; 12288; 65279]%N.

Definition is_space (c : N) : bool := existsb (N.eqb c) white_space.

Fixpoint trimStart (s : jsstring) : jsstring :=
  match s with
  | c :: s' => if is_space c then trimStart s' else s
  | [] => []
  end.

Definition trimEnd (s : jsstring) : jsstring := rev (trimStart (rev s)).

Definition trim (s : jsstring) : jsstring := trimEnd (trimStart s).

Definition is_empty (s : jsstring) : bool :=
  match s with [] => true | _ :: _ => false end.

Fixpoint str_eqb (s t : jsstring) : bool :=
  match s, t with
  | [], [] => true
  | c :: s', d :: t' => N.eqb c d && str_eqb s' t'
  | _, _ => false
  end.

Fixpoint startsWith (s sub : jsstring) {struct sub} : bool :=
  match sub, s with
  | [], _ => true
  | c :: sub', d :: s' => N.eqb c d && startsWith s' sub'
  | _ :: _, [] => false
  end.

(** [s.includes(sub)]: [sub] occurs at some position of [s]. *)
Fixpoint includes (s sub : jsstring) : bool :=
  startsWith s sub ||
  match s with
  | [] => false
  | _ :: s' => includes s' sub
  end.

(** *** Numbers

    The handlers only test a number for [NaN] and compare it with the id of
    an item, which is an integer.  A number is therefore [NaN], an integer,
    or a number that is no integer (a fraction, [Infinity], [-Infinity]). *)
Inductive JsNum := NaN | Int (z : Z) | NonInt.

Definition isNaN (n : JsNum) : bool :=
  match n with NaN => true | _ => false end.

(** [a === b] on numbers; [NaN] equals nothing.  Two non-integers are never
    compared by the handlers (one side is always an item id). *)
Definition strict_eq (a b : JsNum) : bool :=
  match a, b with
  | Int x, Int y => x =? y
  | _, _ => false
  end.

Definition digit_val (base : Z) (c : N) : option Z :=
  let v :=
    if (48 <=? c)%N && (c <=? 57)%N then Z.of_N c - 48
    else if (97 <=? c)%N && (c <=? 102)%N then Z.of_N c - 87
    else if (65 <=? c)%N && (c <=? 70)%N then Z.of_N c - 55
    else base in
  if v <? base then Some v else None.

(** Reads the longest run of digits in [base] at the head of [s]: the value
    read on top of [acc], the number of digits, and the rest. *)
Fixpoint read_digits (base acc : Z) (n : nat) (s : jsstring) : Z * nat * jsstring :=
  match s with
  | c :: s' =>
      match digit_val base c with
      | Some d => read_digits base (base * acc + d) (S n) s'
      | None => (acc, n, s)
      end
  | [] => (acc, n, [])
  end.

(** The number with decimal mantissa [m] and exponent [e], [m * 10^e], at
    its exact value.  The program rounds to binary64: a text such as
    [0.99999999999999999999], which it reads as 1, is a non-integer here,
    and an integer beyond 2^53 is kept as written.  No property below
    concludes from [NonInt], or from an integer beyond 2^53, that an id is
    absent. *)
Definition of_decimal (m e : Z) : JsNum :=
  if m =? 0 then Int 0
  else if 0 <=? e then Int (m * 10 ^ e)
  else if m mod 10 ^ (- e) =? 0 then Int (m / 10 ^ (- e))
  else NonInt.

(** ExponentPart (optional) followed by the end of the text. *)
Definition read_exponent (s : jsstring) : option Z :=
  match s with
  | [] => Some 0
  | c :: s' =>
      if N.eqb c 101 || N.eqb c 69 then
        let '(neg, s'') :=
          match s' with
          | d :: r => if N.eqb d 45 then (true, r)
                      else if N.eqb d 43 then (false, r) else (false, s')
          | [] => (false, s')
          end in
        match read_digits 10 0 0 s'' with
        | (v, S _, []) => Some (if neg then - v else v)
        | _ => None
        end
      else None
  end.

(** StrUnsignedDecimalLiteral. *)
Definition unsigned_decimal (s : jsstring) : JsNum :=
  if str_eqb s (lit "Infinity") then NonInt
  else
    let '(i, ni, r1) := read_digits 10 0 0 s in
    let '(m, nf, r2) :=
      match r1 with
      | c :: r => if N.eqb c 46 then read_digits 10 i 0 r else (i, 0%nat, r1)
      | [] => (i, 0%nat, r1)
      end in
    match (ni + nf)%nat with
    | O => NaN
    | S _ =>
        match read_exponent r2 with
        | Some e => of_decimal m (e - Z.of_nat nf)
        | None => NaN
        end
    end.

(** NonDecimalIntegerLiteral: [0x], [0o], [0b] and their digits. *)
Definition non_decimal (s : jsstring) : option JsNum :=
  match s with
  | z :: p :: r =>
      if N.eqb z 48 then
        let base :=
          if N.eqb p 120 || N.eqb p 88 then Some 16
          else if N.eqb p 111 || N.eqb p 79 then Some 8
          else if N.eqb p 98 || N.eqb p 66 then Some 2
          else None in
        match base with
        | Some b =>
            match read_digits b 0 0 r with
            | (v, S _, []) => Some (Int v)
            | _ => Some NaN
            end
        | None => None
        end
      else None
  | _ => None
  end.

Definition negate (n : JsNum) : JsNum :=
  match n with Int z => Int (- z) | _ => n end.

(** StringToNumber: the text is trimmed; the empty text is [0]; otherwise it
    must be a StrNumericLiteral, and is [NaN] if it is not. *)
Definition StringToNumber (s : jsstring) : JsNum :=
  match trim s with
  | [] => Int 0
  | (c :: r) as t =>
      match non_decimal t with
      | Some n => n
      | None =>
          if N.eqb c 45 then negate (unsigned_decimal r)
          else if N.eqb c 43 then unsigned_decimal r
          else unsigned_decimal t
      end
  end.

(** [`${n}`] for an integer [n] (exact for [|n| < 10^21]). *)
Definition NumberToString (z : Z) : jsstring :=
  lit (NilZero.string_of_int (Z.to_int z)).

(** Any other value a body parser can hand over (a JSON number, an array,
    an object), known by what the handlers can observe of it: its
    truthiness and its conversions.  It has no [trim] method. *)
Record Other := {
  o_truthy : bool;
  o_string : jsstring;
  o_number : JsNum
}.

Inductive JsVal :=
| VUndefined
| VNull
| VBool (b : bool)
| VString (s : jsstring)
| VOther (o : Other).

Definition truthy (v : JsVal) : bool :=
  match v with
  | VUndefined | VNull => false
  | VBool b => b
  | VString s => negb (is_empty s)
  | VOther o => o_truthy o
  end.

(** [String(v)] *)
Definition ToString (v : JsVal) : jsstring :=
  match v with
  | VUndefined => lit "undefined"
  | VNull => lit "null"
  | VBool true => lit "true"
  | VBool false => lit "false"
  | VString s => s
  | VOther o => o_string o
  end.

(** [Number(v)] *)
Definition Number (v : JsVal) : JsNum :=
  match v with
  | VUndefined => NaN
  | VNull => Int 0
  | VBool true => Int 1
  | VBool false => Int 0
  | VString s => StringToNumber s
  | VOther o => o_number o
  end.

End Js.
Import Js.

(** ** node:path (POSIX) *)

Module Path.

Definition slash : N := 47%N.
Definition dot : N := 46%N.

Fixpoint skip_slashes (s : jsstring) : jsstring :=
  match s with
  | c :: s' => if N.eqb c slash then skip_slashes s' else s
  | [] => []
  end.

(** The characters of [s] up to the first [c] (none of it if [c] is absent:
    then the whole of [s]). *)
Fixpoint upto (c : N) (s : jsstring) : jsstring :=
  match s with
  | d :: s' => if N.eqb d c then [] else d :: upto c s'
  | [] => []
  end.

(** [path.basename(p)]: the last portion of [p], trailing separators
    ignored. *)
Definition basename (p : jsstring) : jsstring :=
  rev (upto slash (skip_slashes (rev p))).

(** [path.extname(p)]: from the last [.] of the last portion of [p] to its
    end; empty when there is no [.], when the portion starts with its only
    [.], and for the portion [..]. *)
Definition extname (p : jsstring) : jsstring :=
  let b := basename p in
  let after := rev (upto dot (rev b)) in
  let before := (length b - length after - 1)%nat in
  if (length after =? length b)%nat then []
  else if (before =? 0)%nat then []
  else if str_eqb b [dot; dot] then []
  else dot :: after.

End Path.

(** ** The state of the service *)

(** An element of [inventory]:
    [{ id, inventory_name, description, photoFilename }]. *)
Record Item := {
  id : Z;
  inventory_name : jsstring;
  description : jsstring;
  photoFilename : option jsstring   (* [None] is [null] *)
}.

(** The process and its cache directory: the array [inventory], the file
    [inventory.json] ([None] while it does not exist) and the files of
    [photos/], by name. *)
Record World := {
  inventory : list Item;
  snapshot : option (list Item);
  photos : gmap jsstring (list N)
}.

(** What a request cannot decide itself: the clock and the random number
    that name an upload, and whether [fs.writeFile] on the snapshot succeeds. *)
Record Env := {
  now : Z;            (* Date.now() *)
  random : Z;         (* Math.round(Math.random() * 1e9) *)
  write_ok : bool
}.

(** File-system effects, in the order they happen. *)
Inductive Event :=
| EvStorePhoto (name : jsstring)           (* multer wrote photos/name *)
| EvWriteSnapshot (items : list Item)      (* fs.writeFile(INVENTORY_FILE, ...) *)
| EvUnlink (name : jsstring).              (* fs.unlink(photos/name) was called *)

Inductive Exn := TypeError | IOError.

Inductive Result (A : Type) :=
| Ok (a : A)
| Throw (e : Exn).
Arguments Ok {A} a.
Arguments Throw {A} e.

(** A computation: from a world to a result, the world it leaves and the
    effects it performed, all of them before the result is there. *)
Definition M (A : Type) : Type := World -> Result A * World * list Event.

Definition ret {A} (a : A) : M A := fun w => (Ok a, w, []).

Definition throw {A} (e : Exn) : M A := fun w => (Throw e, w, []).

Definition bind {A B} (m : M A) (k : A -> M B) : M B := fun w =>
  match m w with
  | (Ok a, w1, ev1) =>
      let '(r, w2, ev2) := k a w1 in (r, w2, ev1 ++ ev2)
  | (Throw e, w1, ev1) => (Throw e, w1, ev1)
  end.

(** [try { m } catch (err) { h(err) }] *)
Definition try_catch {A} (m : M A) (h : Exn -> M A) : M A := fun w =>
  match m w with
  | (Throw e, w1, ev1) =>
      let '(r, w2, ev2) := h e w1 in (r, w2, ev1 ++ ev2)
  | r => r
  end.

Declare Scope js_scope.
Delimit Scope js_scope with js.
Notation "'let*' x := m 'in' k" := (bind m (fun x => k))
  (at level 10, x name, m at level 100, k at level 200) : js_scope.
Notation "m ;; k" := (bind m (fun _ => k))
  (at level 100, k at level 200, right associativity) : js_scope.
Open Scope js_scope.

Definition get_inventory_array : M (list Item) := fun w => (Ok (inventory w), w, []).

Definition set_inventory (l : list Item) : M unit := fun w =>
  (Ok tt, {| inventory := l; snapshot := snapshot w; photos := photos w |}, []).

(** [--cache] was given a fresh directory: nothing is loaded yet. *)
Definition fresh (ph : gmap jsstring (list N)) : World :=
  {| inventory := []; snapshot := None; photos := ph |}.

(** *** Persistence *)

(** [saveInventory()]: the whole array goes to [inventory.json].  When the
    write fails the promise is rejected.  The failing branch stands for a
    write that fails before the file is opened; a write that fails half way,
    which leaves a truncated file, has no counterpart here, and no property
    below says what the file holds after a failed write. *)
Definition saveInventory (e : Env) : M unit := fun w =>
  if write_ok e then
    (Ok tt,
     {| inventory := inventory w; snapshot := Some (inventory w); photos := photos w |},
     [EvWriteSnapshot (inventory w)])
  else (Throw IOError, w, []).

(** [loadInventory()]: an absent file gives the empty array, which is saved
    at once.  A file that does not parse (the error is logged and the array
    stays empty) is not represented: the snapshot is an item sequence. *)
Definition loadInventory (e : Env) : M unit := fun w =>
  match snapshot w with
  | Some items => set_inventory items w
  | None => (set_inventory [] ;; saveInventory e) w
  end.

(** *** Helpers of the handlers *)

Fixpoint max_from (m : Z) (l : list Z) : Z :=
  match l with
  | [] => m
  | x :: l' => max_from (Z.max m x) l'
  end.

(** [Math.max(...l)] of a non-empty [l]. *)
Definition Math_max (x : Z) (l : list Z) : Z := max_from x l.

(** [generateId()] *)
Definition generateId (inv : list Item) : Z :=
  if (length inv =? 0)%nat then 1
  else
    match map id inv with
    | x :: l => Math_max x l + 1
    | [] => 1  (* not reached: the array is not empty *)
    end.

Definition id_is (n : JsNum) (it : Item) : Prop :=
  strict_eq (Int (id it)) n = true.

#[local] Instance id_is_dec n it : Decision (id_is n it).
Proof. unfold id_is. apply _. Defined.

(** [findItemById(id)], together with the index of the item found: the
    handlers assign to its fields, which changes the element of the array. *)
Definition findItemById (inv : list Item) (n : JsNum) : option (nat * Item) :=
  list_find (id_is n) inv.

(** [inventory.findIndex((item) => Number(item.id) === id)] *)
Definition findIndex (inv : list Item) (n : JsNum) : option nat :=
  fst <$> list_find (id_is n) inv.

(** [buildPhotoUrl(id)] *)
Definition buildPhotoUrl (i : Z) : jsstring :=
  lit "/inventory/" ++ NumberToString i ++ lit "/photo".
Arguments buildPhotoUrl : simpl never.

(** Truthiness of [item.photoFilename]. *)
Definition has_photo_file (it : Item) : bool :=
  match photoFilename it with
  | Some f => negb (is_empty f)
  | None => false
  end.

(** *** Responses *)

(** [{ id, inventory_name, description, photoUrl }] *)
Record ItemView := {
  v_id : Z;
  v_inventory_name : jsstring;
  v_description : jsstring;
  v_photoUrl : option jsstring   (* [None] is [null] *)
}.

Inductive Json :=
| JError (error : jsstring)                    (* { error } *)
| JMessage (message : jsstring)                (* { message } *)
| JItem (v : ItemView)
| JList (vs : list ItemView)
| Binary (data : list N).                      (* res.send(data), image/jpeg *)

Record Response := { status : Z; payload : Json }.

Definition item_view (it : Item) : ItemView :=
  {| v_id := id it;
     v_inventory_name := inventory_name it;
     v_description := description it;
     v_photoUrl := if has_photo_file it then Some (buildPhotoUrl (id it)) else None |}.

Definition respond (st : Z) (j : Json) : M Response :=
  ret {| status := st; payload := j |}.

(** [v.trim()] for a request field [v]: only a string has the method. *)
Definition call_trim (v : JsVal) : M jsstring :=
  match v with
  | VString s => ret (trim s)
  | _ => throw TypeError
  end.

(** ** Uploads (multer) *)

(** The [photo] part of a multipart request. *)
Record Upload := {
  originalname : jsstring;
  content : list N
}.

(** The [filename] callback of [multer.diskStorage]. *)
Definition storage_filename (e : Env) (file : Upload) : jsstring :=
  let ext :=
    let x := Path.extname (originalname file) in
    if is_empty x then lit ".jpg" else x in
  let unique := NumberToString (now e) ++ lit "-" ++ NumberToString (random e) in
  lit "photo_" ++ unique ++ ext.

(** [upload.single('photo')]: the file, when the request has one, is written
    into [photos/] under its generated name before the handler runs; the
    result is [req.file.filename]. *)
Definition upload_single (e : Env) (file : option Upload) : M (option jsstring) :=
  match file with
  | Some f => fun w =>
      let name := storage_filename e f in
      (Ok (Some name),
       {| inventory := inventory w; snapshot := snapshot w;
          photos := <[name := content f]> (photos w) |},
       [EvStorePhoto name])
  | None => ret None
  end.

(** [fs.unlink(path.join(PHOTOS_DIR, name))] inside [try { } catch { }]: a
    missing file, like any other failure, is ignored. *)
Definition unlink_quietly (name : jsstring) : M unit := fun w =>
  (Ok tt,
   {| inventory := inventory w; snapshot := snapshot w;
      photos := delete name (photos w) |},
   [EvUnlink name]).

(** ** The handlers *)

Definition invalid_id : M Response := respond 400 (JError (lit "Invalid id")).
Definition item_not_found : M Response := respond 404 (JError (lit "Item not found")).
Definition photo_not_found : M Response := respond 404 (JError (lit "Photo not found")).

(** [app.post('/register', upload.single('photo'), ...)], the handler:
    [req.body.inventory_name], [req.body.description], [req.file.filename]. *)
Definition post_register (e : Env) (name descr : JsVal) (file : option jsstring)
  : M Response :=
  try_catch
    (let* blank :=
       (if negb (truthy name) then ret true
        else let* t := call_trim name in ret (is_empty t)) in
     if blank then respond 400 (JError (lit "inventory_name is required"))
     else
       let* inv := get_inventory_array in
       let i := generateId inv in
       let* n := call_trim name in
       let* d := call_trim (if truthy descr then descr else VString []) in
       let item :=
         {| id := i; inventory_name := n; description := d;
            photoFilename := Path.basename <$> file |} in
       set_inventory (inv ++ [item]) ;;
       saveInventory e ;;
       respond 201 (JItem (item_view item)))
    (fun _ => respond 500 (JError (lit "Internal Server Error"))).

(** [app.get('/inventory', ...)] *)
Definition get_inventory : M Response :=
  let* inv := get_inventory_array in
  respond 200 (JList (map item_view inv)).

(** [app.get('/inventory/:id', ...)] *)
Definition get_inventory_id (idtext : jsstring) : M Response :=
  let n := Number (VString idtext) in
  if isNaN n then invalid_id
  else
    let* inv := get_inventory_array in
    match findItemById inv n with
    | None => item_not_found
    | Some (_, item) => respond 200 (JItem (item_view item))
    end.

(** [app.put('/inventory/:id', ...)]: the fields of the item found are
    assigned in place. *)
Definition put_inventory_id (e : Env) (idtext : jsstring) (name descr : JsVal)
  : M Response :=
  let n := Number (VString idtext) in
  if isNaN n then invalid_id
  else
    let* inv := get_inventory_array in
    match findItemById inv n with
    | None => item_not_found
    | Some (k, item) =>
        let item1 :=
          match name with
          | VUndefined => item
          | _ => {| id := id item; inventory_name := trim (ToString name);
                    description := description item;
                    photoFilename := photoFilename item |}
          end in
        let item2 :=
          match descr with
          | VUndefined => item1
          | _ => {| id := id item1; inventory_name := inventory_name item1;
                    description := trim (ToString descr);
                    photoFilename := photoFilename item1 |}
          end in
        set_inventory (<[k := item2]> inv) ;;
        saveInventory e ;;
        respond 200 (JItem (item_view item2))
    end.

(** [app.get('/inventory/:id/photo', ...)]: [fs.readFile] fails with
    [ENOENT] when the file is not there; other read failures (answered 500)
    are not represented. *)
Definition get_inventory_id_photo (idtext : jsstring) : M Response :=
  let n := Number (VString idtext) in
  if isNaN n then invalid_id
  else
    let* inv := get_inventory_array in
    match findItemById inv n with
    | None => photo_not_found
    | Some (_, item) =>
        match photoFilename item with
        | Some f =>
            if is_empty f then photo_not_found
            else fun w =>
              match photos w !! f with
              | Some data => respond 200 (Binary data) w
              | None => photo_not_found w
              end
        | None => photo_not_found
        end
    end.

(** [app.put('/inventory/:id/photo', upload.single('photo'), ...)], the
    handler. *)
Definition put_inventory_id_photo (e : Env) (idtext : jsstring) (file : option jsstring)
  : M Response :=
  let n := Number (VString idtext) in
  if isNaN n then invalid_id
  else
    let* inv := get_inventory_array in
    match findItemById inv n with
    | None => item_not_found
    | Some (k, item) =>
        match file with
        | None => respond 400 (JError (lit "photo file is required"))
        | Some filename =>
            let item' :=
              {| id := id item; inventory_name := inventory_name item;
                 description := description item;
                 photoFilename := Some (Path.basename filename) |} in
            set_inventory (<[k := item']> inv) ;;
            saveInventory e ;;
            respond 200 (JItem (item_view item'))
        end
    end.

(** [app.delete('/inventory/:id', ...)]: [removed] is the element that
    [inventory.splice(index, 1)] took out. *)
Definition delete_inventory_id (e : Env) (idtext : jsstring) : M Response :=
  let n := Number (VString idtext) in
  if isNaN n then invalid_id
  else
    let* inv := get_inventory_array in
    match findIndex inv n with
    | None => item_not_found
    | Some index =>
        let removed := inv !! index in
        set_inventory (delete index inv) ;;
        saveInventory e ;;
        match removed with
        | Some item =>
            match photoFilename item with
            | Some f => if is_empty f then ret tt else unlink_quietly f
            | None => ret tt
            end
        | None => throw TypeError
        end ;;
        respond 200 (JMessage (lit "Item deleted"))
    end.

(** [linkText], [` [Photo: ${buildPhotoUrl(item.id)}]`] *)
Definition link_text (it : Item) : jsstring :=
  lit " [Photo: " ++ buildPhotoUrl (id it) ++ lit "]".
Arguments link_text : simpl never.

(** [app.post('/search', ...)]: [req.body.id], [req.body.has_photo]. *)
Definition post_search (e : Env) (idval hasPhotoFlag : JsVal) : M Response :=
  let n := Number idval in
  if isNaN n then invalid_id
  else
    let* inv := get_inventory_array in
    match findItemById inv n with
    | None => item_not_found
    | Some (k, item) =>
        if truthy hasPhotoFlag && has_photo_file item then
          let linkText := link_text item in
          if negb (includes (description item) linkText) then
            let item' :=
              {| id := id item; inventory_name := inventory_name item;
                 description := description item ++ linkText;
                 photoFilename := photoFilename item |} in
            set_inventory (<[k := item']> inv) ;;
            saveInventory e ;;
            respond 200 (JItem (item_view item'))
          else respond 200 (JItem (item_view item))
        else respond 200 (JItem (item_view item))
    end.

(** ** Requests and the service *)

Inductive Request :=
| Register (name descr : JsVal) (photo : option Upload)
| List
| Get (idtext : jsstring)
| Update (idtext : jsstring) (name descr : JsVal)
| GetPhoto (idtext : jsstring)
| ReplacePhoto (idtext : jsstring) (photo : option Upload)
| Delete (idtext : jsstring)
| Search (idval hasPhotoFlag : JsVal).

(** The route of a request: its middleware, then its handler. *)
Definition serve (e : Env) (rq : Request) : M Response :=
  match rq with
  | Register name descr photo =>
      let* file := upload_single e photo in post_register e name descr file
  | List => get_inventory
  | Get idtext => get_inventory_id idtext
  | Update idtext name descr => put_inventory_id e idtext name descr
  | GetPhoto idtext => get_inventory_id_photo idtext
  | ReplacePhoto idtext photo =>
      let* file := upload_single e photo in put_inventory_id_photo e idtext file
  | Delete idtext => delete_inventory_id e idtext
  | Search idval flag => post_search e idval flag
  end.

Definition result_of {A} (r : Result A * World * list Event) : Result A := fst (fst r).
Definition world_of {A} (r : Result A * World * list Event) : World := snd (fst r).
Definition events_of {A} (r : Result A * World * list Event) : list Event := snd r.

(** The answer was sent with status [st]. *)
Definition answered {A} (st : Z) (r : Result Response * World * A) : Prop :=
  match fst (fst r) with
  | Ok resp => status resp = st
  | Throw _ => False
  end.

(** A sequence of requests, one after the other. *)
Fixpoint run (rs : list (Env * Request)) (w : World) : World :=
  match rs with
  | [] => w
  | (e, rq) :: rs' => run rs' (world_of (serve e rq w))
  end.

(** [start()] on the cache directory as it is: the snapshot is loaded (or
    created), then the server listens. *)
Definition start (e : Env) (w : World) : Result unit * World * list Event :=
  loadInventory e w.

(** The states the service can be in: started on a fresh cache directory,
    started again on the directory an earlier process left, or after a
    request. *)
Inductive reachable : World -> Prop :=
| reach_fresh e ph :
    result_of (start e (fresh ph)) = Ok tt ->
    reachable (world_of (start e (fresh ph)))
| reach_restart e w :
    reachable w ->
    result_of (start e w) = Ok tt ->
    reachable (world_of (start e w))
| reach_serve e rq w :
    reachable w ->
    reachable (world_of (serve e rq w)).

(** * Vocabulary of the properties *)

(** The ids of the array, in its order. *)
Definition ids (inv : list Item) : list Z := map id inv.

(** Operations that call [saveInventory] on every successful path. *)
Definition always_saves (rq : Request) : bool :=
  match rq with
  | Register _ _ _ | Update _ _ _ | ReplacePhoto _ _ | Delete _ => true
  | List | Get _ | GetPhoto _ | Search _ _ => false
  end.

Definition is_delete (rq : Request) : bool :=
  match rq with Delete _ => true | _ => false end.

Definition is_register (rq : Request) : bool :=
  match rq with Register _ _ _ => true | _ => false end.

(** The [inventory_name] of a Register request is absent, or blank once
    trimmed. *)
Definition name_missing_or_blank (v : JsVal) : Prop :=
  v = VUndefined \/ exists s, v = VString s /\ trim s = [].

(** The name under which the upload of a request, if it has one, is stored. *)
Definition stored_name (e : Env) (rq : Request) : option jsstring :=
  match rq with
  | Register _ _ (Some u) | ReplacePhoto _ (Some u) => Some (storage_filename e u)
  | _ => None
  end.

(** No item of the store refers to the blob [g]. *)
Definition unreferenced (g : jsstring) (w : World) : Prop :=
  forall it, it ∈ inventory w -> photoFilename it <> Some g.

(** The four shapes of a change of the array. *)
Inductive store_change (rq : Request) (inv : list Item) : list Item -> Prop :=
| sc_same : store_change rq inv inv
| sc_push it :
    is_register rq = true ->
    id it = generateId inv ->
    store_change rq inv (inv ++ [it])
| sc_assign k it it' :
    is_delete rq = false ->
    inv !! k = Some it ->
    id it' = id it ->
    store_change rq inv (<[k := it']> inv)
| sc_splice k :
    is_delete rq = true ->
    store_change rq inv (delete k inv).

(** Ids are pairwise distinct and positive. *)
Definition good_ids (inv : list Item) : Prop :=
  NoDup (ids inv) /\ forall i, i ∈ ids inv -> 1 <= i.

(** ... in the array and in the snapshot. *)
Definition distinct_ids (w : World) : Prop :=
  good_ids (inventory w) /\ forall l, snapshot w = Some l -> good_ids l.

(** The answer of [/register] to a request without a name. *)
Definition name_required : Response :=
  {| status := 400; payload := JError (lit "inventory_name is required") |}.

(** Every Register request of the sequence is answered 201 Created. *)
Fixpoint all_registered (rs : list (Env * Request)) (w : World) : Prop :=
  match rs with
  | [] => True
  | (e, rq) :: rs' =>
      (is_register rq = true -> answered 201 (serve e rq w))
      /\ all_registered rs' (world_of (serve e rq w))
  end.

(** The number of Register requests of a sequence. *)
Definition registers (rs : list (Env * Request)) : nat :=
  length (filter (fun p => is_register (snd p) = true) rs).

(** [1; 2; ...; n] *)
Definition one_to (n : nat) : list Z := Z.of_nat <$> seq 1 n.

(** The value a field of an Update takes: kept when the patch does not have
    the field, otherwise the trimmed text of what was supplied. *)
Definition patched (old : jsstring) (v : JsVal) : jsstring :=
  match v with
  | VUndefined => old
  | _ => trim (ToString v)
  end.

(** The blob of an item: its [photoFilename] when that is truthy. *)
Definition blob_of (it : Item) : option jsstring :=
  match photoFilename it with
  | Some f => if is_empty f then None else Some f
  | None => None
  end.

(** The world [w] with another content of [photos/]. *)
Definition with_photos (w : World) (ph : gmap jsstring (list N)) : World :=
  {| inventory := inventory w; snapshot := snapshot w; photos := ph |}.

(** The id a request carries: the [:id] of the path, or [req.body.id]. *)
Definition request_id (rq : Request) : option JsVal :=
  match rq with
  | Get t | Update t _ _ | GetPhoto t | ReplacePhoto t _ | Delete t => Some (VString t)
  | Search v _ => Some v
  | Register _ _ _ | List => None
  end.

(** The answer to an id that is no number. *)
Definition bad_id : Response :=
  {| status := 400; payload := JError (lit "Invalid id") |}.

(** The id in the answer of a Register. *)
Definition assigned_id (r : Result Response * World * list Event) : option Z :=
  match result_of r with
  | Ok {| payload := JItem v |} => Some (v_id v)
  | _ => None
  end.

(** The claim that the greatest id is always handed out again: in every
    reachable non-empty store, if the item with the greatest id [m] is
    deleted, the Register that follows is given [m]. *)
Definition greatest_id_always_reused : Prop :=
  forall e1 e2 idtext name descr photo w m,
    reachable w ->
    inventory w <> [] ->
    m = generateId (inventory w) - 1 ->
    Number (VString idtext) = Int m ->
    answered 200 (serve e1 (Delete idtext) w) ->
    answered 201 (serve e2 (Register name descr photo)
                    (world_of (serve e1 (Delete idtext) w))) ->
    assigned_id (serve e2 (Register name descr photo)
                   (world_of (serve e1 (Delete idtext) w))) = Some m.

(** A text without [/]. *)
Definition no_slash (s : jsstring) : Prop := Forall (fun c => c <> Path.slash) s.

(** ** Concrete stores *)

Module Scenario.

Definition env : Env :=
  {| now := 1762128000000; random := 424242; write_ok := true |}.

(** The service started on an empty cache directory. *)
Definition started : World := world_of (start env (fresh ∅)).

Definition register (name : string) : Env * Request :=
  (env, Register (VString (lit name)) VUndefined None).

(** One item, [Laptop], with id 1. *)
Definition laptop : World := run [register "Laptop"] started.

(** Three registrations, then the second item deleted: ids 1 and 3. *)
Definition gap : World :=
  run [register "Laptop"; register "Mouse"; register "Screen";
       (env, Delete (lit "2"))] started.

Definition picture : Upload :=
  {| originalname := lit "holiday/cat.png"; content := [255; 216; 255]%N |}.

(** One item, [Camera], with a photo. *)
Definition camera : World :=
  run [(env, Register (VString (lit "Camera")) (VString (lit " Nikon ")) (Some picture))]
      started.

Definition laptop_item : Item :=
  {| id := 1; inventory_name := lit "Laptop"; description := []; photoFilename := None |}.

Definition camera_item : Item :=
  {| id := 1; inventory_name := lit "Camera"; description := lit "Nikon";
     photoFilename := Some (lit "photo_1762128000000-424242.png") |}.

End Scenario.

(** ** Vocabulary of the further properties *)

(** The value of a run of decimal digits read after [acc]. *)
Fixpoint digits_value (acc : Z) (u : Decimal.uint) : Z :=
  match u with
  | Decimal.Nil => acc
  | Decimal.D0 l => digits_value (10 * acc + 0) l
  | Decimal.D1 l => digits_value (10 * acc + 1) l
  | Decimal.D2 l => digits_value (10 * acc + 2) l
  | Decimal.D3 l => digits_value (10 * acc + 3) l
  | Decimal.D4 l => digits_value (10 * acc + 4) l
  | Decimal.D5 l => digits_value (10 * acc + 5) l
  | Decimal.D6 l => digits_value (10 * acc + 6) l
  | Decimal.D7 l => digits_value (10 * acc + 7) l
  | Decimal.D8 l => digits_value (10 * acc + 8) l
  | Decimal.D9 l => digits_value (10 * acc + 9) l
  end.

Definition is_digit (c : N) : bool := (48 <=? c)%N && (c <=? 57)%N.

(** Ids grow along the array. *)
Definition increasing_ids (inv : list Item) : Prop := StronglySorted Z.lt (ids inv).

(** A name is stored trimmed. *)
Definition trimmed_names (inv : list Item) : Prop :=
  Forall (fun it => trim (inventory_name it) = inventory_name it) inv.

(** The text is empty or ends with something that is no white space. *)
Definition ends_solid (s : jsstring) : Prop :=
  s = [] \/ exists z c, s = z ++ [c] /\ is_space c = false.

(** The snapshot file holds exactly the array. *)
Definition in_sync (w : World) : Prop := snapshot w = Some (inventory w).

(** Every write of the snapshot during these requests succeeds. *)
Definition writes_succeed (rs : list (Env * Request)) : Prop :=
  forall p, p ∈ rs -> write_ok p.1 = true.

(** The name is absent or falsy, or a string that is blank once trimmed. *)
Definition name_refused (name : JsVal) : Prop :=
  truthy name = false \/ exists s, name = VString s /\ trim s = [].

(** The fields can be stored: the name is a string that is not blank, the
    description is falsy or a string. *)
Definition registrable (name descr : JsVal) : Prop :=
  (exists s, name = VString s /\ trim s <> [])
  /\ (truthy descr = false \/ exists d, descr = VString d).

(** A field is a truthy value without a [trim] method. *)
Definition not_trimmable (v : JsVal) : Prop :=
  truthy v = true /\ forall s, v <> VString s.

(** The item Register builds from a request. *)
Definition new_item (e : Env) (name descr : JsVal) (photo : option Upload) (w : World)
  : Item :=
  {| id := generateId (inventory w);
     inventory_name := trim (ToString name);
     description := if truthy descr then trim (ToString descr) else [];
     photoFilename := storage_filename e <$> photo |}.

(** [photos/] once the upload of a request, if any, is stored. *)
Definition photos_with (e : Env) (photo : option Upload) (w : World)
  : gmap jsstring (list N) :=
  match photo with
  | Some u => <[storage_filename e u := content u]> (photos w)
  | None => photos w
  end.

Definition upload_events (e : Env) (photo : option Upload) : list Event :=
  match photo with
  | Some u => [EvStorePhoto (storage_filename e u)]
  | None => []
  end.

Definition internal_error : Response :=
  {| status := 500; payload := JError (lit "Internal Server Error") |}.

(** List, Get, GetPhoto, and Search without a truthy [has_photo]. *)
Definition reads_only (rq : Request) : bool :=
  match rq with
  | List | Get _ | GetPhoto _ => true
  | Search _ flag => negb (truthy flag)
  | Register _ _ _ | Update _ _ _ | ReplacePhoto _ _ | Delete _ => false
  end.

(** *** Routing: the guards of the known paths and the fallback *)

(** [req.method] *)
Inductive Method := GET | POST | PUT | DELETE | HEAD | PATCH | OPTIONS.

#[local] Instance Method_eq_dec : EqDecision Method.
Proof. solve_decision. Defined.

(** The path of a request, as the router matches it.  [OtherPath] is a path
    that none of the routes matches (and that neither the static files nor
    [/docs] serve). *)
Inductive Route :=
| RegisterPath                        (* /register *)
| InventoryPath                       (* /inventory *)
| ItemPath (idtext : jsstring)        (* /inventory/:id *)
| PhotoPath (idtext : jsstring)       (* /inventory/:id/photo *)
| SearchFormPath                      (* /SearchForm.html *)
| RegisterFormPath                    (* /RegisterForm.html *)
| SearchPath                          (* /search *)
| OtherPath.

(** The [allowed] array of the [app.all] guard of each known path. *)
Definition allowed (r : Route) : list Method :=
  match r with
  | RegisterPath => [POST]
  | InventoryPath => [GET]
  | ItemPath _ => [GET; PUT; DELETE]
  | PhotoPath _ => [GET; PUT]
  | SearchFormPath => [GET]
  | RegisterFormPath => [GET]
  | SearchPath => [POST]
  | OtherPath => []
  end.

(** A request whose body the parsers could decode.  [static_file] is the
    file of the source directory that the path of the request names, if
    there is one. *)
Record HttpRequest := {
  method : Method;
  route : Route;
  static_file : option jsstring;
  body_inventory_name : JsVal;     (* req.body.inventory_name *)
  body_description : JsVal;        (* req.body.description *)
  body_id : JsVal;                 (* req.body.id *)
  body_has_photo : JsVal;          (* req.body.has_photo *)
  upload : option Upload           (* the [photo] part, if any *)
}.

(** What is sent back: a JSON or binary answer, or a file of the source
    directory, sent by the static middleware or handed to [res.sendFile]
    (which leaves the answer to the error handling of Express when the file
    is not there). *)
Inductive Answer :=
| Sent (r : Response)
| SentFile (name : jsstring).

Definition method_not_allowed : Response :=
  {| status := 405; payload := JError (lit "Method Not Allowed") |}.

Definition not_found : Response :=
  {| status := 404; payload := JError (lit "Not Found") |}.

Definition answer (m : M Response) : M Answer :=
  let* r := m in ret (Sent r).

(** The handler registered for a method on a path; without one the request
    falls through to the last [app.use], which answers 404.  (Express lets
    the handler of GET answer HEAD as well; on the known paths the guards
    have refused HEAD before that.  A form is sent whether [express.static]
    or the route of the form gets to it first.) *)
Definition route_handler (e : Env) (h : HttpRequest) : M Answer :=
  match route h, method h with
  | RegisterPath, POST =>
      answer (serve e (Register (body_inventory_name h) (body_description h) (upload h)))
  | InventoryPath, GET => answer (serve e List)
  | ItemPath t, GET => answer (serve e (Get t))
  | ItemPath t, PUT =>
      answer (serve e (Update t (body_inventory_name h) (body_description h)))
  | ItemPath t, DELETE => answer (serve e (Delete t))
  | PhotoPath t, GET => answer (serve e (GetPhoto t))
  | PhotoPath t, PUT => answer (serve e (ReplacePhoto t (upload h)))
  | RegisterFormPath, GET => ret (SentFile (lit "RegisterForm.html"))
  | SearchFormPath, GET => ret (SentFile (lit "SearchForm.html"))
  | SearchPath, POST => answer (serve e (Search (body_id h) (body_has_photo h)))
  | _, _ => ret (Sent not_found)
  end.

(** [app.use(express.static(__dirname))], mounted before the guards: a GET
    or a HEAD for a path that names a file of the source directory is
    answered with that file; every other request is passed on. *)
Definition served_by_static (h : HttpRequest) : option jsstring :=
  match static_file h with
  | Some f => if bool_decide (method h ∈ [GET; HEAD]) then Some f else None
  | None => None
  end.

(** A request from the guards on: on a known path the guard lets an allowed
    method through to its handler and answers 405 to any other. *)
Definition guarded (e : Env) (h : HttpRequest) : M Answer :=
  match route h with
  | OtherPath => route_handler e h
  | r =>
      if bool_decide (method h ∈ allowed r) then route_handler e h
      else ret (Sent method_not_allowed)
  end.

(** A request from the static files on. *)
Definition handle (e : Env) (h : HttpRequest) : M Answer :=
  match served_by_static h with
  | Some f => ret (SentFile f)
  | None => guarded e h
  end.

(** *** Ids that spell no number *)

(** A text without a decimal digit: whatever else it is, it spells no
    number. *)
Definition digitless (s : jsstring) : Prop := Forall (fun c => is_digit c = false) s.

(** The claim that every id text that spells no number is refused: each
    operation that takes an id answers 400 [Invalid id] to it. *)
Definition malformed_ids_always_rejected : Prop :=
  forall e rq s w,
    request_id rq = Some (VString s) ->
    digitless s ->
    result_of (serve e rq w) = Ok bad_id.

(** ** Further concrete requests *)

Module Cases.

(** A moment at which the snapshot cannot be written. *)
Definition disk_full : Env :=
  {| now := 1762128000500; random := 7; write_ok := false |}.

(** A later moment, for a second upload. *)
Definition later : Env :=
  {| now := 1762128000900; random := 99; write_ok := true |}.

Definition portrait : Upload :=
  {| originalname := lit "me.jpeg"; content := [137; 80; 78; 71]%N |}.

(** [HEAD /inventory], with a photo attached; the source directory has no
    file of that name. *)
Definition head_inventory : HttpRequest :=
  {| method := HEAD; route := InventoryPath; static_file := None;
     body_inventory_name := VUndefined; body_description := VUndefined;
     body_id := VUndefined; body_has_photo := VUndefined;
     upload := Some portrait |}.

End Cases.

(** * Properties *)

(** ** Strings *)

Lemma startsWith_app (l r : jsstring) : startsWith (l ++ r) l = true.
Proof.
  induction l as [|c l IH]; [reflexivity|].
  simpl. rewrite N.eqb_refl. exact IH.
Qed.

Lemma includes_app_r (d l : jsstring) : includes (d ++ l) l = true.
Proof.
  induction d as [|c d IH]; simpl.
  - destruct l as [|x l]; [reflexivity|].
    simpl. rewrite N.eqb_refl. simpl.
    rewrite <- (app_nil_r l) at 1. now rewrite startsWith_app.
  - rewrite IH. apply orb_true_r.
Qed.

(** ** Identifiers *)

Lemma max_from_ge (l : list Z) : forall m, m <= max_from m l.
Proof.
  induction l as [|x l IH]; intros m; simpl; [lia|].
  specialize (IH (Z.max m x)). lia.
Qed.

Lemma max_from_bound (l : list Z) : forall m x, x ∈ l -> x <= max_from m l.
Proof.
  induction l as [|y l IH]; intros m x Hx; simpl.
  - inversion Hx.
  - apply elem_of_cons in Hx as [->|Hx].
    + pose proof (max_from_ge l (Z.max m y)). lia.
    + now apply IH.
Qed.

Lemma max_from_elem (l : list Z) : forall m, max_from m l ∈ m :: l.
Proof.
  induction l as [|y l IH]; intros m; simpl.
  - apply list_elem_of_here.
  - specialize (IH (Z.max m y)).
    apply elem_of_cons in IH as [Heq|Hin].
    + rewrite Heq. destruct (Z.max_spec m y) as [[_ ->]|[_ ->]].
      * apply list_elem_of_further, list_elem_of_here.
      * apply list_elem_of_here.
    + now do 2 apply list_elem_of_further.
Qed.

Lemma generateId_empty : generateId [] = 1.
Proof. reflexivity. Qed.

(** On a non-empty array, [generateId() - 1] is the greatest id. *)
Lemma generateId_max (inv : list Item) :
  inv <> [] ->
  generateId inv - 1 ∈ ids inv /\ forall i, i ∈ ids inv -> i <= generateId inv - 1.
Proof.
  destruct inv as [|it inv]; [congruence|]. intros _.
  unfold generateId, ids, Math_max. simpl.
  replace (max_from (id it) (map id inv) + 1 - 1)
    with (max_from (id it) (map id inv)) by lia.
  split; [apply max_from_elem|].
  intros i Hi. apply elem_of_cons in Hi as [->|Hi].
  - apply max_from_ge.
  - now apply max_from_bound.
Qed.

Lemma generateId_above (inv : list Item) i : i ∈ ids inv -> i < generateId inv.
Proof.
  intros Hi. destruct inv as [|it inv]; [inversion Hi|].
  destruct (generateId_max (it :: inv)) as [_ H]; [congruence|].
  specialize (H i Hi). lia.
Qed.

Lemma strict_eq_Int z n : strict_eq (Int z) n = true <-> n = Int z.
Proof.
  destruct n; simpl; split; try congruence.
  - intros H. apply Z.eqb_eq in H. congruence.
  - intros [= ->]. apply Z.eqb_refl.
Qed.

Lemma findItemById_Some inv n k it :
  findItemById inv n = Some (k, it) ->
  inv !! k = Some it /\ n = Int (id it).
Proof.
  unfold findItemById. intros H. apply list_find_Some in H as (Hk & Hid & _).
  split; [exact Hk|]. now apply strict_eq_Int in Hid.
Qed.

Lemma findItemById_None inv n :
  findItemById inv n = None <-> forall it, it ∈ inv -> n <> Int (id it).
Proof.
  unfold findItemById. rewrite list_find_None, Forall_forall.
  split; intros H it Hit.
  - intros Hn. apply (H it Hit). now apply strict_eq_Int.
  - intros Hn. apply (H it Hit). now apply strict_eq_Int in Hn.
Qed.

Lemma findIndex_findItemById inv n :
  findIndex inv n = fst <$> findItemById inv n.
Proof. reflexivity. Qed.

(** With distinct ids, once the item found is deleted no item has that id. *)
Lemma find_after_delete inv n k it :
  NoDup (ids inv) ->
  findItemById inv n = Some (k, it) ->
  findItemById (delete k inv) n = None.
Proof.
  intros Hnd Hf. apply findItemById_Some in Hf as [Hk ->].
  apply findItemById_None. intros it' Hin Heq.
  injection Heq as Heq.
  apply list_elem_of_lookup in Hin as [j Hj].
  assert (Hlt : (k < length inv)%nat) by (apply lookup_lt_is_Some; eauto).
  destruct (decide (j < k)%nat) as [Hjk|Hjk].
  - rewrite list_lookup_delete_lt in Hj by exact Hjk.
    assert (j = k); [|lia].
    eapply NoDup_lookup; [exact Hnd| |]; unfold ids; rewrite list_lookup_fmap.
    + rewrite Hj. simpl. reflexivity.
    + rewrite Hk. simpl. now rewrite Heq.
  - rewrite list_lookup_delete_ge in Hj by lia.
    assert (S j = k); [|lia].
    eapply NoDup_lookup; [exact Hnd| |]; unfold ids; rewrite list_lookup_fmap.
    + rewrite Hj. simpl. reflexivity.
    + rewrite Hk. simpl. now rewrite Heq.
Qed.

Lemma ids_insert_same inv k it it' :
  inv !! k = Some it -> id it' = id it -> ids (<[k := it']> inv) = ids inv.
Proof.
  intros Hk Hid. unfold ids. rewrite list_fmap_insert, Hid.
  apply list_insert_id. rewrite list_lookup_fmap, Hk. reflexivity.
Qed.

Lemma ids_delete inv k : ids (delete k inv) = delete k (ids inv).
Proof.
  unfold ids. revert k. induction inv as [|x inv IH]; intros [|k]; simpl; try reflexivity.
  now rewrite IH.
Qed.

Lemma NoDup_delete_ids (l : list Z) k : NoDup l -> NoDup (delete k l).
Proof.
  intros H. apply (sublist_NoDup (delete k l) l H), sublist_delete.
Qed.

Lemma NoDup_ids_push inv it :
  NoDup (ids inv) -> id it = generateId inv -> NoDup (ids (inv ++ [it])).
Proof.
  intros Hnd Hid. unfold ids. rewrite map_app. simpl.
  apply NoDup_app. split; [exact Hnd|]. split.
  - intros x Hx Hx'. apply list_elem_of_singleton in Hx'. subst x.
    apply generateId_above in Hx. lia.
  - apply NoDup_singleton.
Qed.

(** ** What a request does to the store *)

Ltac unfold_handlers :=
  unfold serve, post_register, get_inventory, get_inventory_id, put_inventory_id,
    get_inventory_id_photo, put_inventory_id_photo, delete_inventory_id,
    post_search, upload_single, invalid_id, item_not_found, photo_not_found,
    respond, saveInventory, set_inventory, get_inventory_array, unlink_quietly,
    call_trim, try_catch, bind, ret, throw, answered, result_of, world_of,
    events_of in *.

Ltac crunch := unfold_handlers; simpl in *; repeat (case_match; simpl in *; simplify_eq).

Lemma serve_store_change e rq w :
  store_change rq (inventory w) (inventory (world_of (serve e rq w))).
Proof.
  destruct rq; crunch;
    try apply sc_same;
    try (apply sc_push; reflexivity);
    try (apply sc_splice; reflexivity);
    try (match goal with
         | H : findItemById _ _ = Some _ |- _ => apply findItemById_Some in H as [H _]
         end;
         eapply sc_assign; [reflexivity | eassumption | reflexivity]).
Qed.

Lemma serve_snapshot e rq w :
  let w' := world_of (serve e rq w) in
  snapshot w' = snapshot w \/ snapshot w' = Some (inventory w').
Proof.
  destruct rq; crunch; auto.
Qed.

Lemma good_ids_nil : good_ids [].
Proof. split; [apply NoDup_nil_2|]. intros i Hi. inversion Hi. Qed.

Lemma generateId_positive inv : (forall i, i ∈ ids inv -> 1 <= i) -> 1 <= generateId inv.
Proof.
  intros Hpos. destruct inv as [|it inv]; [now rewrite generateId_empty|].
  destruct (generateId_max (it :: inv)) as [Hin _]; [congruence|].
  apply Hpos in Hin. lia.
Qed.

Lemma store_change_good_ids rq inv inv' :
  store_change rq inv inv' -> good_ids inv -> good_ids inv'.
Proof.
  intros [|it _ Hid|k it it' _ Hk Hid|k _] [Hnd Hpos].
  - now split.
  - split; [now apply NoDup_ids_push|].
    intros i Hi. unfold ids in Hi. rewrite map_app in Hi.
    apply elem_of_app in Hi as [Hi|Hi]; [now apply Hpos|].
    apply list_elem_of_singleton in Hi. subst i. rewrite Hid.
    now apply generateId_positive.
  - unfold good_ids. now rewrite (ids_insert_same inv k it it').
  - unfold good_ids. rewrite ids_delete. split; [now apply NoDup_delete_ids|].
    intros i Hi. apply Hpos. eapply list_elem_of_delete_inv, Hi.
Qed.

Lemma serve_distinct_ids e rq w :
  distinct_ids w -> distinct_ids (world_of (serve e rq w)).
Proof.
  intros [Hi Hs].
  assert (Hi' : good_ids (inventory (world_of (serve e rq w)))).
  { eapply store_change_good_ids; [apply serve_store_change|exact Hi]. }
  split; [exact Hi'|].
  intros l Hl. destruct (serve_snapshot e rq w) as [Heq|Heq]; rewrite Heq in Hl.
  - now apply Hs.
  - now injection Hl as <-.
Qed.

Lemma start_distinct_ids e w :
  distinct_ids w -> distinct_ids (world_of (start e w)).
Proof.
  intros [Hi Hs]. unfold start, loadInventory.
  destruct (snapshot w) as [l|] eqn:Hl.
  - crunch. split; [now apply Hs|]. intros l' Hl'. apply Hs. simpl in Hl'. congruence.
  - crunch; split; simpl; try intros ? [= <-]; try apply good_ids_nil; congruence.
Qed.

Lemma reachable_distinct_ids w : reachable w -> distinct_ids w.
Proof.
  induction 1 as [e ph _|e w _ IH _|e rq w _ IH].
  - apply start_distinct_ids. split; [apply good_ids_nil|]. intros l [=].
  - now apply start_distinct_ids.
  - now apply serve_distinct_ids.
Qed.

Lemma reachable_run rs : forall w, reachable w -> reachable (run rs w).
Proof.
  induction rs as [|[e rq] rs IH]; intros w Hw; simpl; [exact Hw|].
  apply IH. now apply reach_serve.
Qed.

(** ** Persistence *)

(** C1. Register, Update, Delete and ReplacePhoto, and Search when it
    changes the array: whenever such a request is answered with success (200
    or 201), the snapshot file holds exactly the array as the request left
    it, and the write of that array is among the effects that precede the
    answer. *)
Theorem snapshot_follows_mutation e rq w :
  answered 200 (serve e rq w) \/ answered 201 (serve e rq w) ->
  always_saves rq = true \/ inventory (world_of (serve e rq w)) <> inventory w ->
  snapshot (world_of (serve e rq w)) = Some (inventory (world_of (serve e rq w)))
  /\ EvWriteSnapshot (inventory (world_of (serve e rq w))) ∈ events_of (serve e rq w).
Proof.
  intros Hok Hmut.
  destruct rq; crunch;
    try (destruct Hok as [Hok|Hok]; (discriminate Hok || contradiction || lia));
    try (destruct Hmut as [Hmut|Hmut]; (discriminate Hmut || congruence));
    (split; [reflexivity|]);
    repeat (apply list_elem_of_here || apply list_elem_of_further).
Qed.

(** ** Registration *)

(** The handler of [/register] on a missing or blank name: the answer is 400
    and nothing happens. *)
Lemma post_register_blank e name descr file w :
  name_missing_or_blank name ->
  post_register e name descr file w = (Ok name_required, w, []).
Proof.
  intros [->|(s & -> & Hs)]; [reflexivity|].
  unfold post_register, try_catch, bind, call_trim, ret, respond. simpl.
  destruct (is_empty s); simpl; [reflexivity|].
  rewrite Hs. reflexivity.
Qed.

(** C3. A Register request whose name is missing, or blank once trimmed, is
    answered 400 [inventory_name is required]; the array and the snapshot
    file are what they were, the next id is still the same, and no write of
    the snapshot takes place. *)
Theorem register_blank_name_rejected e name descr photo w :
  name_missing_or_blank name ->
  result_of (serve e (Register name descr photo) w) = Ok name_required
  /\ inventory (world_of (serve e (Register name descr photo) w)) = inventory w
  /\ snapshot (world_of (serve e (Register name descr photo) w)) = snapshot w
  /\ generateId (inventory (world_of (serve e (Register name descr photo) w)))
     = generateId (inventory w)
  /\ forall items,
       EvWriteSnapshot items ∉ events_of (serve e (Register name descr photo) w).
Proof.
  intros Hblank. unfold serve, bind.
  destruct photo as [u|]; unfold upload_single, ret;
    rewrite (post_register_blank _ _ _ _ _ Hblank);
    unfold result_of, world_of, events_of; simpl;
    repeat split; auto.
  - intros items Hin. apply list_elem_of_singleton in Hin. discriminate.
  - intros items Hin. inversion Hin.
Qed.

Lemma one_to_S n : one_to (S n) = one_to n ++ [Z.of_nat n + 1].
Proof.
  unfold one_to. rewrite seq_S, fmap_app. simpl. do 2 f_equal. lia.
Qed.

Lemma elem_of_one_to i n : i ∈ one_to n <-> 1 <= i <= Z.of_nat n.
Proof.
  unfold one_to. rewrite list_elem_of_fmap. split.
  - intros (k & -> & Hk). apply elem_of_seq in Hk. lia.
  - intros H. exists (Z.to_nat i). split; [lia|]. apply elem_of_seq. lia.
Qed.

Lemma generateId_one_to inv n : ids inv = one_to n -> generateId inv = Z.of_nat n + 1.
Proof.
  intros Hids. destruct inv as [|it inv].
  - destruct n; [reflexivity|]. rewrite one_to_S in Hids.
    symmetry in Hids. now apply app_nil in Hids as [_ ?].
  - destruct (generateId_max (it :: inv)) as [Hin Hmax]; [congruence|].
    rewrite Hids in Hin, Hmax. apply elem_of_one_to in Hin.
    destruct n as [|n]; [lia|].
    specialize (Hmax (Z.of_nat (S n))).
    rewrite elem_of_one_to in Hmax. lia.
Qed.

(** A successful Register appends one item, whose id is the generated one;
    a request that is no Register and no Delete leaves the ids alone. *)
Lemma serve_ids_no_delete e rq w :
  is_delete rq = false ->
  (is_register rq = true -> answered 201 (serve e rq w)) ->
  ids (inventory (world_of (serve e rq w))) =
  ids (inventory w) ++ (if is_register rq then [generateId (inventory w)] else []).
Proof.
  intros Hnd Hreg.
  assert (Hsame : forall k it it', inventory w !! k = Some it -> id it' = id it ->
            ids (<[k := it']> (inventory w)) = ids (inventory w) ++ []).
  { intros. rewrite app_nil_r. eauto using ids_insert_same. }
  destruct rq; try discriminate Hnd; simpl in Hreg;
    try specialize (Hreg eq_refl); crunch;
    try contradiction; try lia; try (now rewrite app_nil_r);
    try (unfold ids; rewrite map_app; reflexivity);
    try (match goal with
         | H : findItemById _ _ = Some _ |- _ => apply findItemById_Some in H as [H _]
         end; eapply Hsame; [eassumption|reflexivity]).
Qed.

Lemma run_ids_count_up rs : forall w n,
  ids (inventory w) = one_to n ->
  (forall p, p ∈ rs -> is_delete (snd p) = false) ->
  all_registered rs w ->
  ids (inventory (run rs w)) = one_to (n + registers rs).
Proof.
  induction rs as [|[e rq] rs IH]; intros w n Hids Hnd Hreg; simpl.
  - unfold registers. simpl. now rewrite Nat.add_0_r.
  - destruct Hreg as [Hrq Hreg].
    assert (Hd : is_delete rq = false) by (apply (Hnd (e, rq)), list_elem_of_here).
    pose proof (serve_ids_no_delete e rq w Hd Hrq) as Hstep.
    assert (Hrest : forall p, p ∈ rs -> is_delete (snd p) = false).
    { intros p Hp. apply Hnd. now apply list_elem_of_further. }
    unfold registers. rewrite filter_cons. simpl.
    destruct (is_register rq) eqn:Hr.
    + rewrite decide_True by reflexivity. simpl.
      replace (n + S (length (filter (fun p => is_register (snd p) = true) rs)))%nat
        with (S n + registers rs)%nat by (unfold registers; lia).
      apply IH; [|exact Hrest|exact Hreg].
      rewrite Hstep, Hids, (generateId_one_to _ n Hids). symmetry. apply one_to_S.
    + rewrite decide_False by discriminate.
      apply IH; [|exact Hrest|exact Hreg].
      rewrite Hstep, Hids. apply app_nil_r.
Qed.

(** C2. From an empty store, a sequence of requests with no Delete in which
    every Register is answered 201 leaves as many items as it has Register
    requests, and their ids, in the order of the array (the order of
    registration), are 1, 2, ..., N.  The id generator gives 1 on the empty
    array and otherwise one more than the greatest id of the array. *)
Theorem register_ids_count_up rs w :
  inventory w = [] ->
  (forall p, p ∈ rs -> is_delete (snd p) = false) ->
  all_registered rs w ->
  length (inventory (run rs w)) = registers rs
  /\ ids (inventory (run rs w)) = one_to (registers rs)
  /\ generateId [] = 1
  /\ forall inv, inv <> [] ->
       generateId inv - 1 ∈ ids inv
       /\ forall i, i ∈ ids inv -> i <= generateId inv - 1.
Proof.
  intros Hempty Hnd Hreg.
  assert (Hids : ids (inventory (run rs w)) = one_to (registers rs)).
  { apply (run_ids_count_up rs w 0); [now rewrite Hempty|exact Hnd|exact Hreg]. }
  split; [|split; [exact Hids|split; [reflexivity|apply generateId_max]]].
  apply (f_equal length) in Hids.
  unfold ids, one_to in Hids. rewrite length_map, length_fmap, length_seq in Hids.
  exact Hids.
Qed.

(** ** Update *)

(** C4. An Update of an existing item assigns the fields the patch has and
    no other: with only a description, the name stays; with only a name, the
    description stays; id and photo reference stay in every case; a supplied
    field is stored trimmed; the other items stay as they are. *)
Theorem update_assigns_supplied_fields_only e idtext name descr w k item :
  findItemById (inventory w) (Number (VString idtext)) = Some (k, item) ->
  exists item',
    inventory (world_of (serve e (Update idtext name descr) w))
      = <[k := item']> (inventory w)
    /\ id item' = id item
    /\ photoFilename item' = photoFilename item
    /\ (name = VUndefined -> inventory_name item' = inventory_name item)
    /\ (descr = VUndefined -> description item' = description item)
    /\ (name <> VUndefined -> inventory_name item' = trim (ToString name))
    /\ (descr <> VUndefined -> description item' = trim (ToString descr))
    /\ (write_ok e = true ->
        result_of (serve e (Update idtext name descr) w)
          = Ok {| status := 200; payload := JItem (item_view item') |}).
Proof.
  intros Hfind.
  exists {| id := id item;
            inventory_name := patched (inventory_name item) name;
            description := patched (description item) descr;
            photoFilename := photoFilename item |}.
  pose proof (findItemById_Some _ _ _ _ Hfind) as [_ Hn].
  unfold serve, put_inventory_id. rewrite Hn. simpl isNaN. cbv iota.
  unfold bind, get_inventory_array. simpl.
  rewrite <- Hn, Hfind.
  destruct item as [i nm ds ph].
  destruct name, descr; unfold saveInventory; destruct (write_ok e); simpl;
    repeat split; congruence.
Qed.

(** ** Search *)

(** Assigning to a field of the item found, other than its id, does not
    change which item is found. *)
Lemma findItemById_insert inv n k it it' :
  findItemById inv n = Some (k, it) ->
  id it' = id it ->
  findItemById (<[k := it']> inv) n = Some (k, it').
Proof.
  unfold findItemById. intros Hf Hid.
  apply list_find_Some in Hf as (Hk & HP & Hbefore).
  apply list_find_Some. split; [|split].
  - apply list_lookup_insert_eq. apply lookup_lt_is_Some. eauto.
  - unfold id_is in *. now rewrite Hid.
  - intros j y Hj Hlt. rewrite list_lookup_insert_ne in Hj by lia. eauto.
Qed.

(** C5. Search with a truthy [has_photo] on an item that has a photo: the
    description gets [" [Photo: <photoUrl>]"] appended unless it already
    contains that text, and nothing else of the item changes; the same
    Search once more changes nothing and writes nothing, so the text is
    appended once. *)
Theorem search_appends_link_once e1 e2 idval flag w k item :
  findItemById (inventory w) (Number idval) = Some (k, item) ->
  has_photo_file item = true ->
  truthy flag = true ->
  let w1 := world_of (serve e1 (Search idval flag) w) in
  let r2 := serve e2 (Search idval flag) w1 in
  exists item1,
    inventory w1 = <[k := item1]> (inventory w)
    /\ description item1 =
         (if includes (description item) (link_text item) then description item
          else description item ++ link_text item)
    /\ id item1 = id item
    /\ inventory_name item1 = inventory_name item
    /\ photoFilename item1 = photoFilename item
    /\ inventory (world_of r2) = inventory w1
    /\ events_of r2 = []
    /\ result_of r2 = Ok {| status := 200; payload := JItem (item_view item1) |}.
Proof.
  intros Hfind Hphoto Hflag w1 r2.
  pose proof (findItemById_Some _ _ _ _ Hfind) as [Hk Hn].
  set (item1 := {| id := id item; inventory_name := inventory_name item;
                   description :=
                     if includes (description item) (link_text item)
                     then description item
                     else description item ++ link_text item;
                   photoFilename := photoFilename item |}).
  assert (Hw1 : inventory w1 = <[k := item1]> (inventory w)).
  { subst w1 item1. unfold serve, post_search. rewrite Hn. simpl isNaN. cbv iota.
    unfold bind, get_inventory_array. simpl. rewrite <- Hn, Hfind, Hflag, Hphoto.
    simpl.
    destruct (includes (description item) (link_text item)); simpl.
    - unfold world_of. simpl. symmetry. apply list_insert_id. rewrite Hk. now destruct item.
    - unfold saveInventory. destruct (write_ok e1); reflexivity. }
  assert (Hfind1 : findItemById (inventory w1) (Number idval) = Some (k, item1)).
  { rewrite Hw1. now apply (findItemById_insert _ _ _ item). }
  assert (Hinc : includes (description item1) (link_text item1) = true).
  { replace (link_text item1) with (link_text item) by reflexivity.
    subst item1. cbn [description].
    destruct (includes (description item) (link_text item)) eqn:Hi;
      [exact Hi|apply includes_app_r]. }
  assert (Hphoto1 : has_photo_file item1 = true) by exact Hphoto.
  assert (Hfields : description item1 =
                      (if includes (description item) (link_text item)
                       then description item
                       else description item ++ link_text item)
                    /\ id item1 = id item
                    /\ inventory_name item1 = inventory_name item
                    /\ photoFilename item1 = photoFilename item)
    by (repeat split).
  clearbody item1.
  assert (Hr2 : r2 = (Ok {| status := 200; payload := JItem (item_view item1) |}, w1, [])).
  { subst r2. unfold serve, post_search. rewrite Hn. simpl isNaN. cbv iota.
    unfold bind, get_inventory_array. simpl.
    rewrite <- Hn, Hfind1, Hflag, Hphoto1. simpl. rewrite Hinc. reflexivity. }
  exists item1. destruct Hfields as (Hd & Hi & Hnm & Hp).
  rewrite Hr2. unfold world_of, events_of, result_of. simpl.
  repeat split; assumption.
Qed.

(** ** Delete *)

(** What Delete does when it finds the item and the snapshot can be written. *)
Lemma delete_found e idtext w index removed :
  findItemById (inventory w) (Number (VString idtext)) = Some (index, removed) ->
  write_ok e = true ->
  serve e (Delete idtext) w =
  (Ok {| status := 200; payload := JMessage (lit "Item deleted") |},
   {| inventory := delete index (inventory w);
      snapshot := Some (delete index (inventory w));
      photos := match blob_of removed with
                | Some f => delete f (photos w)
                | None => photos w
                end |},
   EvWriteSnapshot (delete index (inventory w)) ::
   match blob_of removed with
   | Some f => [EvUnlink f]
   | None => []
   end).
Proof.
  intros Hfind Hw.
  pose proof (findItemById_Some _ _ _ _ Hfind) as [Hk Hn].
  unfold serve, delete_inventory_id. rewrite Hn. simpl isNaN. cbv iota.
  unfold bind, get_inventory_array. simpl.
  rewrite <- Hn, findIndex_findItemById, Hfind. simpl.
  unfold saveInventory. rewrite Hw, Hk. simpl. unfold blob_of.
  destruct (photoFilename removed) as [f|]; [|reflexivity].
  destruct (is_empty f); reflexivity.
Qed.

(** Delete is answered 200 only if it found the item and wrote the snapshot. *)
Lemma delete_answered_200 e idtext w :
  answered 200 (serve e (Delete idtext) w) ->
  write_ok e = true
  /\ exists index removed,
       findItemById (inventory w) (Number (VString idtext)) = Some (index, removed).
Proof.
  unfold serve, delete_inventory_id, findIndex, findItemById.
  generalize (Number (VString idtext)). intros n H.
  destruct (list_find (id_is n) (inventory w)) as [[index removed]|] eqn:Hf;
    destruct (write_ok e) eqn:Hw; crunch; try lia; eauto;
    match goal with
    | H0 : fst <$> _ = Some _ |- _ => rewrite Hf in H0; discriminate H0
    end.
Qed.

(** C6. A Delete answered 200 has taken the item out of the array and
    written the array without it to the snapshot; only after that write is
    the blob of the item, if it has one, unlinked, and whether the blob file
    exists plays no part in the answer.  From then on Get and GetPhoto for
    that id are answered 404. *)
Theorem delete_then_not_found e e' idtext w :
  reachable w ->
  answered 200 (serve e (Delete idtext) w) ->
  let r := serve e (Delete idtext) w in
  exists index removed,
    findItemById (inventory w) (Number (VString idtext)) = Some (index, removed)
    /\ inventory (world_of r) = delete index (inventory w)
    /\ snapshot (world_of r) = Some (inventory (world_of r))
    /\ events_of r =
         EvWriteSnapshot (delete index (inventory w)) ::
         match blob_of removed with
         | Some f => [EvUnlink f]
         | None => []
         end
    /\ (forall f, blob_of removed = Some f -> photos (world_of r) !! f = None)
    /\ (forall ph, answered 200 (serve e (Delete idtext) (with_photos w ph)))
    /\ result_of (serve e' (Get idtext) (world_of r))
         = Ok {| status := 404; payload := JError (lit "Item not found") |}
    /\ result_of (serve e' (GetPhoto idtext) (world_of r))
         = Ok {| status := 404; payload := JError (lit "Photo not found") |}.
Proof.
  intros Hreach Hok r.
  apply delete_answered_200 in Hok as (Hw & index & removed & Hfind).
  apply reachable_distinct_ids in Hreach as [[Hnd _] _].
  pose proof (find_after_delete _ _ _ _ Hnd Hfind) as Hgone.
  pose proof (findItemById_Some _ _ _ _ Hfind) as [_ Hn].
  pose proof (delete_found e idtext w index removed Hfind Hw) as Hd.
  exists index, removed. subst r. rewrite Hd.
  unfold world_of, events_of, result_of. cbn [fst snd inventory snapshot photos].
  split; [exact Hfind|]. split; [reflexivity|]. split; [reflexivity|].
  split; [reflexivity|]. split; [|split; [|split]].
  - intros f Hf. rewrite Hf. apply lookup_delete_eq.
  - intros ph. rewrite (delete_found e idtext (with_photos w ph) index removed Hfind Hw).
    reflexivity.
  - unfold serve, get_inventory_id. rewrite Hn. simpl isNaN. cbv iota.
    unfold bind, get_inventory_array. simpl. rewrite <- Hn, Hgone. reflexivity.
  - unfold serve, get_inventory_id_photo. rewrite Hn. simpl isNaN. cbv iota.
    unfold bind, get_inventory_array. simpl. rewrite <- Hn, Hgone. reflexivity.
Qed.

(** ** Malformed ids *)

(** A text that, once trimmed, starts with something other than a digit, a
    sign, a dot or the [I] of [Infinity] is no number. *)
Lemma StringToNumber_not_numeric s c r :
  trim s = c :: r ->
  digit_val 10 c = None ->
  c <> 43%N -> c <> 45%N -> c <> 46%N -> c <> 73%N ->
  StringToNumber s = NaN.
Proof.
  intros Ht Hd Hplus Hminus Hdot HI.
  unfold StringToNumber. rewrite Ht.
  assert (H0 : N.eqb c 48 = false).
  { apply N.eqb_neq. intros ->. discriminate Hd. }
  assert (Hnd : non_decimal (c :: r) = None).
  { unfold non_decimal. destruct r; [reflexivity|]. now rewrite H0. }
  rewrite Hnd.
  apply N.eqb_neq in Hplus, Hminus, Hdot, HI.
  rewrite Hminus, Hplus.
  unfold unsigned_decimal.
  replace (str_eqb (c :: r) (lit "Infinity")) with false.
  2:{ set (inf := lit "Infinity"). vm_compute in inf. subst inf.
      simpl. now rewrite HI. }
  simpl. rewrite Hd, Hdot. reflexivity.
Qed.

(** A blank text is the number 0, not [NaN]. *)
Lemma StringToNumber_blank s : trim s = [] -> StringToNumber s = Int 0.
Proof. intros Ht. unfold StringToNumber. now rewrite Ht. Qed.

(** The blank text is no malformed id for the handlers: Search with an
    empty [id] field looks for the item with id 0. *)
Example search_blank_id :
  Number (VString (lit "")) = Int 0
  /\ result_of (serve Scenario.env (Search (VString (lit "")) VUndefined) Scenario.laptop)
     = Ok {| status := 404; payload := JError (lit "Item not found") |}.
Proof. split; reflexivity. Qed.

(** C7, as stated, fails: the empty text is no number, yet [POST /search]
    with [id=] on the store that holds [Laptop] is not answered 400:
    [Number("")] is 0, the store is searched for the id 0, and the answer is
    404 [Item not found]. *)
Lemma malformed_ids_not_always_rejected : ~ malformed_ids_always_rejected.
Proof.
  intros H.
  specialize (H Scenario.env (Search (VString []) VUndefined) [] Scenario.laptop
                eq_refl (Forall_nil_2 _)).
  vm_compute in H. discriminate H.
Qed.

(** C7, amended.  Get, Update, Delete, GetPhoto, ReplacePhoto and Search
    answer an id that [Number] turns into [NaN] with 400 [Invalid id].  The
    answer is the same whatever the store holds, and the array and the
    snapshot are left alone: nothing is written to the snapshot and no blob
    is unlinked.  Nothing at all happens unless the request is a
    ReplacePhoto with a file, whose upload multer has stored by then. *)
Theorem malformed_id_rejected e rq v w :
  request_id rq = Some v ->
  isNaN (Number v) = true ->
  result_of (serve e rq w) = Ok bad_id
  /\ (forall w2, result_of (serve e rq w2) = Ok bad_id)
  /\ inventory (world_of (serve e rq w)) = inventory w
  /\ snapshot (world_of (serve e rq w)) = snapshot w
  /\ (forall items, EvWriteSnapshot items ∉ events_of (serve e rq w))
  /\ (forall f, EvUnlink f ∉ events_of (serve e rq w))
  /\ (stored_name e rq = None ->
      world_of (serve e rq w) = w /\ events_of (serve e rq w) = []).
Proof.
  intros Hid Hnan.
  assert (Hno : forall (ev : Event) (l : list Event),
             l = [] \/ (exists g, l = [EvStorePhoto g]) ->
             (forall g, ev <> EvStorePhoto g) -> ev ∉ l).
  { intros ev l [->|[g ->]] Hne Hin; [inversion Hin|].
    apply list_elem_of_singleton in Hin. now apply (Hne g). }
  destruct rq; simpl in Hid; try discriminate Hid; injection Hid as <-;
    unfold serve, get_inventory_id, put_inventory_id, get_inventory_id_photo,
      put_inventory_id_photo, delete_inventory_id, post_search, bind, upload_single;
    try destruct photo; rewrite ?Hnan;
    unfold invalid_id, respond, ret, result_of, world_of, events_of;
    cbn [fst snd inventory snapshot photos stored_name];
    (repeat split; try reflexivity; try discriminate;
     intros; apply Hno; eauto; discriminate).
Qed.

(** ** Names *)

Lemma started_reachable : reachable Scenario.started.
Proof. apply reach_fresh. reflexivity. Qed.

(** A successful Register stores a name that is not empty. *)
Lemma registered_name_not_empty e name descr photo w :
  answered 201 (serve e (Register name descr photo) w) ->
  exists it,
    inventory (world_of (serve e (Register name descr photo) w)) = inventory w ++ [it]
    /\ inventory_name it <> []
    /\ id it = generateId (inventory w)
    /\ result_of (serve e (Register name descr photo) w)
       = Ok {| status := 201; payload := JItem (item_view it) |}.
Proof.
  intros H.
  destruct photo; crunch; try lia; try contradiction;
    (eexists; split; [reflexivity|]; split; [|split; reflexivity]);
    simpl; intros Hn;
    match goal with
    | Hne : is_empty ?t = false |- _ => rewrite Hn in Hne; discriminate Hne
    end.
Qed.

(** C8, at the failing input.  With the item [Laptop] (id 1) in the store,
    [PUT /inventory/1] with the body [{"inventory_name": "   "}] is answered
    200 and leaves the item with the empty name: Update assigns the trimmed
    text without the test for blankness that Register makes. *)
Theorem update_stores_blank_name :
  let rq := Update (lit "1") (VString (lit "   ")) VUndefined in
  reachable Scenario.laptop
  /\ map inventory_name (inventory Scenario.laptop) = [lit "Laptop"]
  /\ reachable (world_of (serve Scenario.env rq Scenario.laptop))
  /\ answered 200 (serve Scenario.env rq Scenario.laptop)
  /\ map inventory_name (inventory (world_of (serve Scenario.env rq Scenario.laptop)))
     = [ [] ].
Proof.
  assert (Hl : reachable Scenario.laptop).
  { apply reachable_run, started_reachable. }
  intros rq. split; [exact Hl|]. split; [reflexivity|].
  split; [now apply reach_serve|]. split; reflexivity.
Qed.

(** ** Reuse of ids *)

(** C10, as stated, fails: the store with ids 1 and 3 (three registrations,
    item 2 deleted) has greatest id 3; after [DELETE /inventory/3] the next
    Register is given 2. *)
Lemma greatest_id_not_always_reused : ~ greatest_id_always_reused.
Proof.
  intros H.
  specialize (H Scenario.env Scenario.env (lit "3")
                (VString (lit "Printer")) VUndefined None Scenario.gap 3).
  assert (Hr : reachable Scenario.gap).
  { apply reachable_run, started_reachable. }
  specialize (H Hr).
  assert (Hids : ids (inventory Scenario.gap) = [1; 3]) by reflexivity.
  assert (Hne : inventory Scenario.gap <> []).
  { intros Hnil. rewrite Hnil in Hids. discriminate Hids. }
  specialize (H Hne eq_refl eq_refl eq_refl eq_refl).
  vm_compute in H. discriminate H.
Qed.

(** C10, amended.  In a reachable non-empty store, once the item with the
    greatest id [m] is deleted, the Register that follows is given one more
    than the greatest id that is left, or 1 if nothing is left.  That id is
    never above [m], and it is [m] again exactly when [m - 1] is among the
    ids left, or when nothing is left and [m] is 1. *)
Theorem register_after_deleting_greatest e1 e2 idtext name descr photo w m :
  reachable w ->
  inventory w <> [] ->
  m = generateId (inventory w) - 1 ->
  Number (VString idtext) = Int m ->
  answered 200 (serve e1 (Delete idtext) w) ->
  answered 201 (serve e2 (Register name descr photo)
                  (world_of (serve e1 (Delete idtext) w))) ->
  let w1 := world_of (serve e1 (Delete idtext) w) in
  let rest := ids (inventory w1) in
  assigned_id (serve e2 (Register name descr photo) w1) = Some (generateId (inventory w1))
  /\ generateId (inventory w1) <= m
  /\ (m ∉ rest)
  /\ (generateId (inventory w1) = m <-> (rest = [] /\ m = 1) \/ m - 1 ∈ rest).
Proof.
  intros Hreach Hne Hm Hnum Hdel Hreg w1 rest.
  apply registered_name_not_empty in Hreg as (it & _ & _ & Hid & Hres).
  fold w1 in Hid, Hres.
  assert (Hassigned : assigned_id (serve e2 (Register name descr photo) w1)
                      = Some (generateId (inventory w1))).
  { unfold assigned_id. rewrite Hres. simpl. now rewrite Hid. }
  apply delete_answered_200 in Hdel as (Hw & index & removed & Hfind).
  apply reachable_distinct_ids in Hreach as [[Hnd Hpos] _].
  pose proof (find_after_delete _ _ _ _ Hnd Hfind) as Hgone.
  assert (Hw1 : inventory w1 = delete index (inventory w)).
  { subst w1. now rewrite (delete_found e1 idtext w index removed Hfind Hw). }
  destruct (generateId_max (inventory w) Hne) as [Hmin Hmax]. rewrite <- Hm in Hmin, Hmax.
  assert (Hnotin : m ∉ rest).
  { subst rest. rewrite Hw1. intros Hin. unfold ids in Hin.
    apply list_elem_of_fmap in Hin as (it' & Heq & Hin).
    rewrite Hnum in Hgone. rewrite findItemById_None in Hgone.
    apply (Hgone it' Hin). now rewrite Heq. }
  assert (Hlt : forall i, i ∈ rest -> 1 <= i < m).
  { intros i Hi. assert (Hi' : i ∈ ids (inventory w)).
    { subst rest. rewrite Hw1, ids_delete in Hi. eapply list_elem_of_delete_inv, Hi. }
    specialize (Hmax i Hi'). specialize (Hpos i Hi').
    assert (i <> m) by (intros ->; contradiction). lia. }
  assert (Hmpos : 1 <= m) by now apply Hpos.
  split; [exact Hassigned|].
  destruct (inventory w1) as [|x l] eqn:Hinv.
  - subst rest. simpl. rewrite generateId_empty.
    split; [lia|]. split; [exact Hnotin|]. split.
    + intros <-. now left.
    + intros [[_ ->]|Hin]; [reflexivity|inversion Hin].
  - destruct (generateId_max (x :: l)) as [Hin' Hmax']; [congruence|].
    fold rest in Hin', Hmax'.
    pose proof (Hlt _ Hin') as Hb.
    split; [lia|]. split; [exact Hnotin|]. split.
    + intros Heq. right. now rewrite <- Heq.
    + intros [[Hnil _]|Hin]; [subst rest; discriminate Hnil|].
      specialize (Hmax' _ Hin). lia.
Qed.

(** ** Uploads of rejected registrations *)

Lemma skip_slashes_no_slash s : no_slash s -> Path.skip_slashes s = s.
Proof.
  intros H. destruct H as [|c s Hc Hs]; [reflexivity|].
  simpl. apply N.eqb_neq in Hc. now rewrite Hc.
Qed.

Lemma upto_absent c s : Forall (fun d => d <> c) s -> Path.upto c s = s.
Proof.
  induction 1 as [|d s Hd Hs IH]; [reflexivity|].
  simpl. apply N.eqb_neq in Hd. now rewrite Hd, IH.
Qed.

Lemma upto_without c s : Forall (fun d => d <> c) (Path.upto c s).
Proof.
  induction s as [|d s IH]; simpl; [constructor|].
  destruct (N.eqb d c) eqn:Hd; [constructor|].
  constructor; [now apply N.eqb_neq|exact IH].
Qed.

Lemma upto_keeps (P : N -> Prop) c s : Forall P s -> Forall P (Path.upto c s).
Proof.
  induction 1 as [|d s Hd Hs IH]; simpl; [constructor|].
  destruct (N.eqb d c); constructor; assumption.
Qed.

Lemma basename_no_slash p : no_slash (Path.basename p).
Proof. unfold Path.basename, no_slash. apply Forall_rev, upto_without. Qed.

Lemma basename_id p : no_slash p -> Path.basename p = p.
Proof.
  intros H. unfold Path.basename.
  assert (Hr : no_slash (rev p)) by now apply Forall_rev.
  rewrite (skip_slashes_no_slash _ Hr), (upto_absent _ _ Hr). apply rev_involutive.
Qed.

Lemma extname_no_slash p : no_slash (Path.extname p).
Proof.
  unfold Path.extname.
  repeat match goal with |- context [if ?b then _ else _] => destruct b end;
    try constructor; [discriminate|].
  apply Forall_rev, upto_keeps, Forall_rev, basename_no_slash.
Qed.

Lemma digits_no_slash u : no_slash (lit (NilEmpty.string_of_uint u)).
Proof.
  unfold lit. induction u; simpl; try constructor; try discriminate; assumption.
Qed.

Lemma NumberToString_no_slash z : no_slash (NumberToString z).
Proof.
  unfold NumberToString, NilZero.string_of_int, NilZero.string_of_uint.
  destruct (Z.to_int z) as [u|u].
  - destruct u; try apply digits_no_slash. repeat constructor; discriminate.
  - change (no_slash (45%N :: lit (match u with
                                   | Decimal.Nil => "0"%string
                                   | _ => NilEmpty.string_of_uint u
                                   end))).
    constructor; [discriminate|].
    destruct u; try apply digits_no_slash. repeat constructor; discriminate.
Qed.

(** The generated name is a plain file name: [path.basename] returns it. *)
Lemma basename_storage_filename e u :
  Path.basename (storage_filename e u) = storage_filename e u.
Proof.
  apply basename_id. unfold storage_filename, no_slash.
  repeat apply Forall_app_2;
    try apply NumberToString_no_slash;
    try (repeat constructor; discriminate).
  destruct (is_empty (Path.extname (originalname u)));
    [repeat constructor; discriminate|apply extname_no_slash].
Qed.

Lemma elem_of_list_insert_inv (inv : list Item) k it' it :
  it ∈ <[k := it']> inv -> it = it' \/ it ∈ inv.
Proof.
  revert k. induction inv as [|x inv IH]; intros k Hin; [now right|].
  destruct k as [|k]; simpl in Hin; apply elem_of_cons in Hin as [->|Hin].
  - now left.
  - right. now apply list_elem_of_further.
  - right. apply list_elem_of_here.
  - destruct (IH k Hin) as [->|H]; [now left|right; now apply list_elem_of_further].
Qed.

Lemma unreferenced_insert g w k it it' ph sn :
  unreferenced g w ->
  inventory w !! k = Some it ->
  photoFilename it' <> Some g ->
  unreferenced g {| inventory := <[k := it']> (inventory w); snapshot := sn; photos := ph |}.
Proof.
  intros Hun Hk Hne x Hx. simpl in Hx.
  apply elem_of_list_insert_inv in Hx as [->|Hx]; [exact Hne|now apply Hun].
Qed.

(** A blob that no item refers to outlives every request that does not
    store an upload under its name, and stays unreferenced. *)
Lemma orphan_survives e rq w g data :
  photos w !! g = Some data ->
  unreferenced g w ->
  stored_name e rq <> Some g ->
  photos (world_of (serve e rq w)) !! g = Some data
  /\ unreferenced g (world_of (serve e rq w)).
Proof.
  intros Hg Hun Hname.
  assert (Hfresh : forall u, storage_filename e u <> g ->
            <[storage_filename e u := content u]> (photos w) !! g = Some data).
  { intros u Hu. now rewrite lookup_insert_ne. }
  assert (Hsame : forall ph sn,
            unreferenced g {| inventory := inventory w; snapshot := sn; photos := ph |}).
  { intros ph sn x Hx. now apply Hun. }
  assert (Hpush : forall ph sn it, photoFilename it <> Some g ->
            unreferenced g {| inventory := inventory w ++ [it]; snapshot := sn; photos := ph |}).
  { intros ph sn it Hit x Hx. simpl in Hx.
    apply elem_of_app in Hx as [Hx|Hx]; [now apply Hun|].
    apply list_elem_of_singleton in Hx. now subst x. }
  assert (Hdel : forall ph sn k,
            unreferenced g {| inventory := delete k (inventory w); snapshot := sn; photos := ph |}).
  { intros ph sn k x Hx. simpl in Hx. apply Hun. eapply list_elem_of_delete_inv, Hx. }
  assert (Hkeep : forall k it, inventory w !! k = Some it -> photoFilename it <> Some g).
  { intros k it Hk. apply Hun. eapply list_elem_of_lookup_2, Hk. }
  destruct rq as [name descr [u|]| |t|t name descr|t|t [u|]|t|v flag]; simpl in Hname;
    try (assert (Hu : storage_filename e u <> g) by congruence;
         specialize (Hfresh u Hu));
    crunch;
    repeat match goal with
    | H : findItemById _ _ = Some _ |- _ => apply findItemById_Some in H as [H _]
    end;
    (split;
     [ try assumption;
       try (rewrite lookup_delete_ne; [assumption|]; intros ->; eapply Hkeep; eauto)
     | try exact Hun; try apply Hsame; try apply Hdel;
       try (apply Hpush; simpl; rewrite ?basename_storage_filename; congruence);
       try (eapply unreferenced_insert; [exact Hun|eassumption|];
            simpl; rewrite ?basename_storage_filename; eauto; congruence) ]).
Qed.

Lemma orphan_survives_run rs : forall w g data,
  photos w !! g = Some data ->
  unreferenced g w ->
  (forall p, p ∈ rs -> stored_name (fst p) (snd p) <> Some g) ->
  photos (run rs w) !! g = Some data /\ unreferenced g (run rs w).
Proof.
  induction rs as [|[e rq] rs IH]; intros w g data Hg Hun Hnames; simpl; [now split|].
  destruct (orphan_survives e rq w g data Hg Hun) as [Hg' Hun'].
  { apply (Hnames (e, rq)), list_elem_of_here. }
  apply IH; [exact Hg'|exact Hun'|].
  intros p Hp. apply Hnames. now apply list_elem_of_further.
Qed.

(** C9. A Register request with a photo and a missing or blank name is
    answered 400 and leaves the array as it was, but the upload has been
    written into [photos/] before the handler looked at the name, and the
    handler does not remove it.  Being referenced by no item (its generated
    name was not in use), the file stays there, unreferenced, through all
    later requests that do not store an upload under the same name. *)
Theorem rejected_register_leaves_orphan e name descr u w rs :
  name_missing_or_blank name ->
  unreferenced (storage_filename e u) w ->
  (forall p, p ∈ rs -> stored_name (fst p) (snd p) <> Some (storage_filename e u)) ->
  let g := storage_filename e u in
  let r := serve e (Register name descr (Some u)) w in
  result_of r = Ok name_required
  /\ inventory (world_of r) = inventory w
  /\ snapshot (world_of r) = snapshot w
  /\ events_of r = [EvStorePhoto g]
  /\ photos (world_of r) !! g = Some (content u)
  /\ unreferenced g (world_of r)
  /\ photos (run rs (world_of r)) !! g = Some (content u)
  /\ unreferenced g (run rs (world_of r)).
Proof.
  intros Hblank Hun Hnames g r.
  assert (Hr : r = (Ok name_required,
                    {| inventory := inventory w; snapshot := snapshot w;
                       photos := <[g := content u]> (photos w) |},
                    [EvStorePhoto g])).
  { subst r. unfold serve, bind, upload_single. fold g.
    now rewrite (post_register_blank _ _ _ _ _ Hblank). }
  rewrite Hr. unfold result_of, world_of, events_of. cbn [fst snd inventory snapshot photos].
  assert (Hg : <[g := content u]> (photos w) !! g = Some (content u))
    by apply lookup_insert_eq.
  assert (Hun' : unreferenced g {| inventory := inventory w; snapshot := snapshot w;
                                   photos := <[g := content u]> (photos w) |}).
  { intros it Hit. now apply Hun. }
  repeat (split; [reflexivity || assumption|]).
  now apply orphan_survives_run.
Qed.

(** * The theorems at concrete requests *)

Lemma snapshot_follows_mutation_witness :
  let r := serve Scenario.env (Scenario.register "Laptop").2 Scenario.started in
  answered 201 r
  /\ snapshot (world_of r) = Some (inventory (world_of r))
  /\ EvWriteSnapshot (inventory (world_of r)) ∈ events_of r.
Proof.
  split; [reflexivity|].
  apply (snapshot_follows_mutation Scenario.env _ Scenario.started);
    [right; reflexivity|left; reflexivity].
Defined.

Lemma register_ids_count_up_witness :
  let rs := [Scenario.register "Laptop"; (Scenario.env, List); Scenario.register "Mouse"] in
  inventory Scenario.started = []
  /\ all_registered rs Scenario.started
  /\ ids (inventory (run rs Scenario.started)) = [1; 2].
Proof.
  intros rs.
  assert (Hreg : all_registered rs Scenario.started).
  { simpl. repeat split; intros; try discriminate; reflexivity. }
  split; [reflexivity|]. split; [exact Hreg|].
  refine (proj1 (proj2 (register_ids_count_up rs Scenario.started eq_refl _ Hreg))).
  intros p Hp.
  repeat (apply elem_of_cons in Hp as [->|Hp]; [reflexivity|]).
  inversion Hp.
Defined.

Lemma register_blank_name_rejected_witness :
  let name := VString (lit "   ") in
  let r := serve Scenario.env (Register name VUndefined None) Scenario.laptop in
  name_missing_or_blank name
  /\ result_of r = Ok name_required
  /\ inventory (world_of r) = inventory Scenario.laptop.
Proof.
  intros name r.
  assert (Hblank : name_missing_or_blank name).
  { right. exists (lit "   "). split; reflexivity. }
  split; [exact Hblank|].
  pose proof (register_blank_name_rejected Scenario.env name VUndefined None
                Scenario.laptop Hblank) as (H1 & H2 & _).
  split; assumption.
Defined.

Lemma update_assigns_supplied_fields_only_witness :
  let r := serve Scenario.env
             (Update (lit "1") VUndefined (VString (lit " Dell XPS "))) Scenario.laptop in
  findItemById (inventory Scenario.laptop) (Number (VString (lit "1")))
    = Some (0%nat, Scenario.laptop_item)
  /\ exists item',
       inventory (world_of r) = <[0%nat := item']> (inventory Scenario.laptop)
       /\ inventory_name item' = lit "Laptop"
       /\ description item' = trim (lit " Dell XPS ").
Proof.
  intros r.
  assert (Hfind : findItemById (inventory Scenario.laptop) (Number (VString (lit "1")))
                  = Some (0%nat, Scenario.laptop_item)) by reflexivity.
  split; [exact Hfind|].
  destruct (update_assigns_supplied_fields_only Scenario.env (lit "1") VUndefined
              (VString (lit " Dell XPS ")) Scenario.laptop 0 Scenario.laptop_item Hfind)
    as (item' & Hinv & _ & _ & Hname & _ & _ & Hdescr & _).
  exists item'. split; [exact Hinv|]. split.
  - now rewrite Hname.
  - apply Hdescr. discriminate.
Defined.

Lemma search_appends_link_once_witness :
  let rq := Search (VString (lit "1")) (VString (lit "on")) in
  let w1 := world_of (serve Scenario.env rq Scenario.camera) in
  findItemById (inventory Scenario.camera) (Number (VString (lit "1")))
    = Some (0%nat, Scenario.camera_item)
  /\ map description (inventory w1) = [lit "Nikon [Photo: /inventory/1/photo]"]
  /\ inventory (world_of (serve Scenario.env rq w1)) = inventory w1.
Proof.
  intros rq w1.
  assert (Hfind : findItemById (inventory Scenario.camera) (Number (VString (lit "1")))
                  = Some (0%nat, Scenario.camera_item)) by reflexivity.
  split; [exact Hfind|]. split; [reflexivity|].
  destruct (search_appends_link_once Scenario.env Scenario.env (VString (lit "1"))
              (VString (lit "on")) Scenario.camera 0 Scenario.camera_item
              Hfind eq_refl eq_refl)
    as (item1 & _ & _ & _ & _ & _ & Hsame & _).
  exact Hsame.
Defined.

Lemma delete_then_not_found_witness :
  let r := serve Scenario.env (Delete (lit "1")) Scenario.camera in
  reachable Scenario.camera
  /\ answered 200 r
  /\ result_of (serve Scenario.env (Get (lit "1")) (world_of r))
     = Ok {| status := 404; payload := JError (lit "Item not found") |}
  /\ result_of (serve Scenario.env (GetPhoto (lit "1")) (world_of r))
     = Ok {| status := 404; payload := JError (lit "Photo not found") |}.
Proof.
  intros r.
  assert (Hreach : reachable Scenario.camera).
  { apply reachable_run, started_reachable. }
  assert (Hok : answered 200 r) by reflexivity.
  split; [exact Hreach|]. split; [exact Hok|].
  destruct (delete_then_not_found Scenario.env Scenario.env (lit "1") Scenario.camera
              Hreach Hok)
    as (index & removed & _ & _ & _ & _ & _ & _ & Hget & Hphoto).
  split; assumption.
Defined.

Lemma malformed_id_rejected_witness :
  request_id (Get (lit "abc")) = Some (VString (lit "abc"))
  /\ isNaN (Number (VString (lit "abc"))) = true
  /\ result_of (serve Scenario.env (Get (lit "abc")) Scenario.laptop) = Ok bad_id.
Proof.
  split; [reflexivity|]. split; [reflexivity|].
  exact (proj1 (malformed_id_rejected Scenario.env (Get (lit "abc")) (VString (lit "abc"))
                  Scenario.laptop eq_refl eq_refl)).
Defined.

Lemma rejected_register_leaves_orphan_witness :
  let name := VString (lit " ") in
  let g := storage_filename Scenario.env Scenario.picture in
  let rs := [Scenario.register "Mouse"; (Scenario.env, Delete (lit "1"))] in
  let r := serve Scenario.env (Register name VUndefined (Some Scenario.picture))
             Scenario.laptop in
  name_missing_or_blank name
  /\ unreferenced g Scenario.laptop
  /\ result_of r = Ok name_required
  /\ photos (run rs (world_of r)) !! g = Some (content Scenario.picture).
Proof.
  intros name g rs r.
  assert (Hblank : name_missing_or_blank name).
  { right. exists (lit " "). split; reflexivity. }
  assert (Hun : unreferenced g Scenario.laptop).
  { intros it Hit.
    change (inventory Scenario.laptop) with [Scenario.laptop_item] in Hit.
    apply list_elem_of_singleton in Hit. subst it. discriminate. }
  assert (Hnames : forall p, p ∈ rs -> stored_name p.1 p.2 <> Some g).
  { intros p Hp.
    repeat (apply elem_of_cons in Hp as [->|Hp]; [discriminate|]).
    inversion Hp. }
  split; [exact Hblank|]. split; [exact Hun|].
  destruct (rejected_register_leaves_orphan Scenario.env name VUndefined
              Scenario.picture Scenario.laptop rs Hblank Hun Hnames)
    as (Hres & _ & _ & _ & _ & _ & Hlater & _).
  split; assumption.
Defined.

Lemma register_after_deleting_greatest_witness :
  let w1 := world_of (serve Scenario.env (Delete (lit "3")) Scenario.gap) in
  let rq := Register (VString (lit "Printer")) VUndefined None in
  reachable Scenario.gap
  /\ ids (inventory Scenario.gap) = [1; 3]
  /\ answered 200 (serve Scenario.env (Delete (lit "3")) Scenario.gap)
  /\ answered 201 (serve Scenario.env rq w1)
  /\ assigned_id (serve Scenario.env rq w1) = Some (generateId (inventory w1))
  /\ generateId (inventory w1) <= 3.
Proof.
  intros w1 rq.
  assert (Hreach : reachable Scenario.gap).
  { apply reachable_run, started_reachable. }
  assert (Hne : inventory Scenario.gap <> []) by discriminate.
  split; [exact Hreach|]. split; [reflexivity|].
  split; [reflexivity|]. split; [reflexivity|].
  destruct (register_after_deleting_greatest Scenario.env Scenario.env (lit "3")
              (VString (lit "Printer")) VUndefined None Scenario.gap 3
              Hreach Hne eq_refl eq_refl eq_refl eq_refl)
    as (Hassigned & Hle & _).
  split; assumption.
Defined.

(** * Further properties *)

(** ** Decimal ids *)

Lemma digits_are_digits u : Forall (fun c => is_digit c = true) (lit (NilEmpty.string_of_uint u)).
Proof. unfold lit. induction u; simpl; constructor; (reflexivity || assumption). Qed.

Lemma read_digits_uint u : forall acc n,
  read_digits 10 acc n (lit (NilEmpty.string_of_uint u))
  = (digits_value acc u, (n + Decimal.nb_digits u)%nat, []).
Proof.
  unfold lit. induction u; intros acc n; simpl;
    try (rewrite IHu; do 2 f_equal; lia).
  do 2 f_equal. lia.
Qed.

Lemma digits_value_pos u : forall acc,
  digits_value (Z.pos acc) u = Z.pos (Pos.of_uint_acc u acc).
Proof.
  induction u; intros acc; simpl; try reflexivity;
    match goal with
    | |- digits_value ?a _ = Z.pos (Pos.of_uint_acc _ ?b) =>
        replace a with (Z.pos b) by lia; apply IHu
    end.
Qed.

Lemma digits_value_0 u : digits_value 0 u = Z.of_N (Pos.of_uint u).
Proof.
  induction u; simpl; try reflexivity; try exact IHu;
    match goal with
    | |- digits_value ?a _ = _ => change a with (Z.pos (Z.to_pos a))
    end; apply digits_value_pos.
Qed.

Lemma trimStart_head c s : is_space c = false -> trimStart (c :: s) = c :: s.
Proof. intros H. simpl. now rewrite H. Qed.

Lemma trim_no_space s : Forall (fun c => is_space c = false) s -> trim s = s.
Proof.
  intros H. unfold trim, trimEnd.
  assert (Hs : trimStart s = s) by (destruct H; [reflexivity|now apply trimStart_head]).
  rewrite Hs.
  assert (Hr : Forall (fun c => is_space c = false) (rev s)) by now apply Forall_rev.
  assert (Hs' : trimStart (rev s) = rev s) by (destruct Hr; [reflexivity|now apply trimStart_head]).
  rewrite Hs'. apply rev_involutive.
Qed.

Lemma digit_not_space c : is_digit c = true -> is_space c = false.
Proof.
  unfold is_digit. intros H. apply andb_true_iff in H as [H1 H2].
  apply N.leb_le in H1, H2.
  unfold is_space, white_space. simpl.
  repeat (apply orb_false_iff; split); try reflexivity; apply N.eqb_neq; lia.
Qed.

Lemma digit_val_digit c : is_digit c = true -> digit_val 10 c = Some (Z.of_N c - 48).
Proof.
  unfold is_digit, digit_val. intros H. rewrite H.
  apply andb_true_iff in H as [H1 H2]. apply N.leb_le in H1, H2.
  assert (Hlt : (Z.of_N c - 48 <? 10) = true) by (apply Z.ltb_lt; lia).
  now rewrite Hlt.
Qed.

(** A non-empty run of decimal digits is read as its value. *)
Lemma unsigned_decimal_digits u :
  u <> Decimal.Nil ->
  unsigned_decimal (lit (NilEmpty.string_of_uint u)) = Int (Z.of_N (Pos.of_uint u)).
Proof.
  intros Hne. unfold unsigned_decimal.
  pose proof (digits_are_digits u) as Hd.
  assert (Hinf : str_eqb (lit (NilEmpty.string_of_uint u)) (lit "Infinity") = false).
  { set (inf := lit "Infinity"). vm_compute in inf. subst inf.
    destruct Hd as [|c s Hc Hs]; [reflexivity|].
    simpl. replace (N.eqb c 73) with false; [reflexivity|].
    symmetry. apply N.eqb_neq. intros ->. discriminate Hc. }
  rewrite Hinf, read_digits_uint, digits_value_0. simpl.
  destruct (Decimal.nb_digits u) eqn:Hn; [destruct u; simpl in Hn; congruence|].
  simpl. unfold of_decimal.
  destruct (Z.of_N (Pos.of_uint u) =? 0) eqn:Hz.
  - apply Z.eqb_eq in Hz. now rewrite Hz.
  - simpl. f_equal. lia.
Qed.

Lemma non_decimal_digits s :
  Forall (fun c => is_digit c = true) s -> non_decimal s = None.
Proof.
  intros H. destruct H as [|z s Hz Hs]; [reflexivity|].
  destruct Hs as [|p r Hp Hr]; [reflexivity|].
  unfold non_decimal. destruct (N.eqb z 48); [|reflexivity].
  unfold is_digit in Hp. apply andb_true_iff in Hp as [H1 H2]. apply N.leb_le in H1, H2.
  repeat match goal with
  | |- context [N.eqb p ?k] =>
      replace (N.eqb p k) with false by (symmetry; apply N.eqb_neq; lia)
  end.
  reflexivity.
Qed.

Lemma StringToNumber_digits u :
  u <> Decimal.Nil ->
  StringToNumber (lit (NilEmpty.string_of_uint u)) = Int (Z.of_N (Pos.of_uint u)).
Proof.
  intros Hne. pose proof (digits_are_digits u) as Hd.
  unfold StringToNumber. rewrite trim_no_space.
  2:{ eapply Forall_impl; [exact Hd|]. apply digit_not_space. }
  rewrite <- (unsigned_decimal_digits u Hne).
  destruct (lit (NilEmpty.string_of_uint u)) as [|c r] eqn:Hl.
  - destruct u; try congruence; unfold lit in Hl; simpl in Hl; discriminate Hl.
  - rewrite (non_decimal_digits _ Hd).
    apply Forall_cons in Hd as [Hc _].
    unfold is_digit in Hc. apply andb_true_iff in Hc as [H1 H2]. apply N.leb_le in H1, H2.
    replace (N.eqb c 45) with false by (symmetry; apply N.eqb_neq; lia).
    replace (N.eqb c 43) with false by (symmetry; apply N.eqb_neq; lia).
    reflexivity.
Qed.

(** The decimal text of an integer is read back as that integer. *)
Lemma StringToNumber_NumberToString z : StringToNumber (NumberToString z) = Int z.
Proof.
  unfold NumberToString. destruct z as [|p|p].
  - reflexivity.
  - unfold Z.to_int, NilZero.string_of_int, NilZero.string_of_uint.
    pose proof (Unsigned.to_uint_nonnil p) as Hne.
    assert (Hstr : (match Pos.to_uint p with
                    | Decimal.Nil => "0"%string
                    | _ => NilEmpty.string_of_uint (Pos.to_uint p)
                    end) = NilEmpty.string_of_uint (Pos.to_uint p)).
    { destruct (Pos.to_uint p); congruence. }
    rewrite Hstr, (StringToNumber_digits _ Hne), Unsigned.of_to. reflexivity.
  - unfold Z.to_int, NilZero.string_of_int, NilZero.string_of_uint.
    pose proof (Unsigned.to_uint_nonnil p) as Hne.
    assert (Hstr : (match Pos.to_uint p with
                    | Decimal.Nil => "0"%string
                    | _ => NilEmpty.string_of_uint (Pos.to_uint p)
                    end) = NilEmpty.string_of_uint (Pos.to_uint p)).
    { destruct (Pos.to_uint p); congruence. }
    rewrite Hstr.
    change (lit (String "-" (NilEmpty.string_of_uint (Pos.to_uint p))))
      with (45%N :: lit (NilEmpty.string_of_uint (Pos.to_uint p))).
    pose proof (digits_are_digits (Pos.to_uint p)) as Hd.
    unfold StringToNumber. rewrite trim_no_space.
    2:{ constructor; [reflexivity|].
        eapply Forall_impl; [exact Hd|]. apply digit_not_space. }
    assert (Hnd : non_decimal (45%N :: lit (NilEmpty.string_of_uint (Pos.to_uint p))) = None).
    { unfold non_decimal. destruct (lit _); reflexivity. }
    rewrite Hnd. simpl N.eqb. cbv iota.
    rewrite (unsigned_decimal_digits _ Hne), Unsigned.of_to. reflexivity.
Qed.

(** ** Invariants of the reachable states *)

(** A property of item sequences that holds of the empty one and that no
    request breaks holds of the array and of the snapshot in every reachable
    state. *)
Lemma reachable_invariant (P : list Item -> Prop) :
  P [] ->
  (forall e rq w, P (inventory w) -> P (inventory (world_of (serve e rq w)))) ->
  forall w, reachable w -> P (inventory w) /\ forall l, snapshot w = Some l -> P l.
Proof.
  intros Hnil Hstep.
  assert (Hstart : forall e w,
            (P (inventory w) /\ forall l, snapshot w = Some l -> P l) ->
            P (inventory (world_of (start e w)))
            /\ forall l, snapshot (world_of (start e w)) = Some l -> P l).
  { intros e w [Hi Hs]. unfold start, loadInventory.
    destruct (snapshot w) as [l|] eqn:Hl.
    - crunch. split; [now apply Hs|]. intros l' Hl'. apply Hs. simpl in Hl'. congruence.
    - crunch; split; simpl; try intros ? [= <-]; try exact Hnil; congruence. }
  induction 1 as [e ph _|e w _ IH _|e rq w _ IH].
  - apply Hstart. split; [exact Hnil|]. intros l [=].
  - now apply Hstart.
  - destruct IH as [Hi Hs]. split; [now apply Hstep|].
    intros l Hl. destruct (serve_snapshot e rq w) as [Heq|Heq]; rewrite Heq in Hl.
    + now apply Hs.
    + injection Hl as <-. now apply Hstep.
Qed.

Lemma StronglySorted_delete (l : list Z) : forall k,
  StronglySorted Z.lt l -> StronglySorted Z.lt (delete k l).
Proof.
  induction l as [|x l IH]; intros k Hs; [now destruct k|].
  apply StronglySorted_inv in Hs as [Hl Hx].
  destruct k as [|k]; simpl; [exact Hl|].
  constructor; [now apply IH|].
  apply Forall_forall. intros y Hy. rewrite Forall_forall in Hx. apply Hx.
  eapply list_elem_of_delete_inv, Hy.
Qed.

Lemma store_change_increasing rq inv inv' :
  store_change rq inv inv' -> increasing_ids inv -> increasing_ids inv'.
Proof.
  unfold increasing_ids.
  intros [|it _ Hid|k it it' _ Hk Hid|k _] Hs.
  - exact Hs.
  - unfold ids. rewrite map_app. apply StronglySorted_app_2.
    + intros x1 x2 H1 H2. apply list_elem_of_singleton in H2. subst x2.
      rewrite Hid. now apply generateId_above.
    + exact Hs.
    + repeat constructor.
  - now rewrite (ids_insert_same inv k it it').
  - rewrite ids_delete. now apply StronglySorted_delete.
Qed.

(** X1. In every reachable state the ids of the array are positive and
    strictly increasing along the array, hence pairwise distinct; the same
    holds of the snapshot file. *)
Theorem reachable_ids_increasing w :
  reachable w ->
  (increasing_ids (inventory w) /\ NoDup (ids (inventory w))
   /\ forall i, i ∈ ids (inventory w) -> 1 <= i)
  /\ forall l, snapshot w = Some l -> increasing_ids l.
Proof.
  intros Hr.
  destruct (reachable_invariant increasing_ids) with (w := w) as [Hi Hs]; trivial.
  { constructor. }
  { intros e rq w0. apply (store_change_increasing rq), serve_store_change. }
  destruct (reachable_invariant good_ids) with (w := w) as [[Hnd Hpos] _]; trivial.
  { apply good_ids_nil. }
  { intros e rq w0. apply (store_change_good_ids rq), serve_store_change. }
  repeat split; assumption.
Qed.

(** *** Trimmed names *)

Lemma trimStart_idem s : trimStart (trimStart s) = trimStart s.
Proof.
  induction s as [|c s IH]; [reflexivity|].
  simpl. destruct (is_space c) eqn:Hc; [exact IH|]. simpl. now rewrite Hc.
Qed.

Lemma trimStart_ends_solid s : ends_solid s -> ends_solid (trimStart s).
Proof.
  induction s as [|a s IH]; intros Hs; [now left|].
  simpl. destruct (is_space a) eqn:Ha; [|exact Hs].
  apply IH. destruct Hs as [Hs|(z & c & Hs & Hc)]; [discriminate Hs|].
  destruct z as [|b z]; simpl in Hs; injection Hs as -> ->.
  - congruence.
  - right. eauto.
Qed.

Lemma trimStart_fixed s : trimStart s = s <-> (s = [] \/ exists c r, s = c :: r /\ is_space c = false).
Proof.
  split.
  - destruct s as [|c r]; [now left|]. intros H. right. exists c, r. split; [reflexivity|].
    simpl in H. destruct (is_space c) eqn:Hc; [|reflexivity].
    exfalso. assert (Hlen : (length (trimStart r) <= length r)%nat).
    { clear. induction r as [|a r IH]; simpl; [lia|]. destruct (is_space a); simpl; lia. }
    rewrite H in Hlen. simpl in Hlen. lia.
  - intros [->|(c & r & -> & Hc)]; [reflexivity|]. simpl. now rewrite Hc.
Qed.

(** [trim] leaves a trimmed text alone. *)
Lemma trim_idem s : trim (trim s) = trim s.
Proof.
  set (x := trimStart s).
  assert (Hx : ends_solid (rev x)).
  { subst x. destruct (proj1 (trimStart_fixed (trimStart s)) (trimStart_idem s))
      as [->|(c & r & -> & Hc)]; [now left|].
    right. exists (rev r), c. split; [reflexivity|exact Hc]. }
  assert (Ht : trim s = rev (trimStart (rev x))) by reflexivity.
  assert (Hhead : trimStart (trim s) = trim s).
  { rewrite Ht. apply trimStart_fixed.
    destruct (trimStart_ends_solid _ Hx) as [->|(z & c & -> & Hc)]; [now left|].
    right. exists c, (rev z). split; [|exact Hc]. now rewrite rev_app_distr. }
  unfold trim at 1. rewrite Hhead. unfold trimEnd. rewrite Ht, rev_involutive.
  now rewrite trimStart_idem.
Qed.

Lemma serve_trimmed_names e rq w :
  trimmed_names (inventory w) -> trimmed_names (inventory (world_of (serve e rq w))).
Proof.
  unfold trimmed_names. intros H.
  assert (Hlook : forall k it, inventory w !! k = Some it ->
            trim (inventory_name it) = inventory_name it).
  { intros k it Hk. apply (Forall_lookup_1 _ _ _ _ H Hk). }
  destruct rq; crunch;
    repeat match goal with
    | Hf : findItemById _ _ = Some _ |- _ => apply findItemById_Some in Hf as [Hf _]
    end;
    try assumption;
    try (apply Forall_app_2; [assumption|]; repeat constructor; simpl; apply trim_idem);
    try (apply Forall_insert; [assumption|]; simpl; solve [apply trim_idem | eauto]);
    try (now apply Forall_delete).
Qed.

(** X2. In every reachable state each name in the array (and in the
    snapshot) is trimmed: Register and Update store [trim] of what they are
    given, and nothing else assigns a name. *)
Theorem reachable_names_trimmed w it :
  reachable w ->
  it ∈ inventory w ->
  trim (inventory_name it) = inventory_name it.
Proof.
  intros Hr Hit.
  destruct (reachable_invariant trimmed_names) with (w := w) as [Hi _]; trivial.
  { constructor. }
  { intros e rq w0. apply serve_trimmed_names. }
  unfold trimmed_names in Hi. rewrite Forall_forall in Hi. now apply Hi.
Qed.

(** ** Persistence across restarts *)

Lemma serve_in_sync e rq w :
  write_ok e = true -> in_sync w -> in_sync (world_of (serve e rq w)).
Proof.
  unfold in_sync. intros Hw Hs. destruct rq; crunch; simpl; congruence.
Qed.

Lemma start_in_sync e w :
  result_of (start e w) = Ok tt -> in_sync (world_of (start e w)).
Proof.
  unfold in_sync, start, loadInventory. intros H.
  destruct (snapshot w) as [l|] eqn:Hl; crunch; simpl; congruence.
Qed.

Lemma start_of_in_sync e w : in_sync w -> start e w = (Ok tt, w, []).
Proof.
  unfold in_sync, start, loadInventory. intros H. rewrite H.
  unfold set_inventory. destruct w as [inv sn ph]. simpl in *. now rewrite H.
Qed.

(** X3. Once the service has started, and as long as every write of the
    snapshot succeeds, the snapshot file holds exactly the array after each
    request; starting the service again on that directory then gives back
    the same array and writes nothing. *)
Theorem restart_restores_array e0 w0 rs e :
  result_of (start e0 w0) = Ok tt ->
  writes_succeed rs ->
  let w := run rs (world_of (start e0 w0)) in
  snapshot w = Some (inventory w)
  /\ start e w = (Ok tt, w, []).
Proof.
  intros H0 Hrs w.
  assert (Hsync : in_sync w).
  { subst w. apply start_in_sync in H0. revert H0 Hrs.
    generalize (world_of (start e0 w0)).
    induction rs as [|[e1 rq] rs IH]; intros w1 Hw1 Hrs; simpl; [exact Hw1|].
    apply IH.
    - apply serve_in_sync; [|exact Hw1]. apply (Hrs (e1, rq)), list_elem_of_here.
    - intros p Hp. apply Hrs. now apply list_elem_of_further. }
  split; [exact Hsync|now apply start_of_in_sync].
Qed.

(** ** The outcomes of Register *)

Lemma upload_single_eq e photo w :
  upload_single e photo w =
  (Ok (storage_filename e <$> photo),
   {| inventory := inventory w; snapshot := snapshot w; photos := photos_with e photo w |},
   upload_events e photo).
Proof. destruct photo; [reflexivity|]. now destruct w. Qed.

Lemma trim_nil : trim [] = [].
Proof. reflexivity. Qed.

Lemma registrable_truthy s : trim s <> [] -> is_empty s = false.
Proof. destruct s; [intros H; now destruct H|reflexivity]. Qed.

Lemma is_empty_false (s : jsstring) : s <> [] -> is_empty s = false.
Proof. destruct s; [intros H; now destruct H|reflexivity]. Qed.

Lemma serve_register_refused e name descr photo w :
  name_refused name ->
  serve e (Register name descr photo) w =
  (Ok name_required,
   {| inventory := inventory w; snapshot := snapshot w; photos := photos_with e photo w |},
   upload_events e photo).
Proof.
  intros Href. unfold serve, bind. rewrite upload_single_eq.
  assert (H : forall f w1, post_register e name descr f w1 = (Ok name_required, w1, [])).
  { intros f w1. destruct Href as [Hf|(s & -> & Hs)].
    - unfold post_register, try_catch, bind. rewrite Hf. reflexivity.
    - apply post_register_blank. right. eauto. }
  rewrite H. now rewrite app_nil_r.
Qed.

Lemma serve_register_registrable e name descr photo w :
  registrable name descr ->
  let it := new_item e name descr photo w in
  serve e (Register name descr photo) w =
  if write_ok e then
    (Ok {| status := 201; payload := JItem (item_view it) |},
     {| inventory := inventory w ++ [it]; snapshot := Some (inventory w ++ [it]);
        photos := photos_with e photo w |},
     upload_events e photo ++ [EvWriteSnapshot (inventory w ++ [it])])
  else
    (Ok internal_error,
     {| inventory := inventory w ++ [it]; snapshot := snapshot w;
        photos := photos_with e photo w |},
     upload_events e photo).
Proof.
  intros [(s & -> & Hs) Hd] it. subst it. unfold new_item.
  unfold serve, bind. rewrite upload_single_eq.
  pose proof (registrable_truthy s Hs) as Hne.
  pose proof (is_empty_false _ Hs) as Hts.
  assert (Hphoto : Path.basename <$> (storage_filename e <$> photo)
                   = storage_filename e <$> photo).
  { destruct photo; simpl; [now rewrite basename_storage_filename|reflexivity]. }
  unfold post_register, try_catch, bind, call_trim, ret, respond, get_inventory_array,
    set_inventory, saveInventory.
  cbn [truthy negb ToString]. rewrite Hne. cbn [negb]. rewrite Hts.
  destruct Hd as [Hd|(d & ->)].
  - rewrite Hd. cbn [inventory snapshot photos]. rewrite Hphoto.
    destruct (write_ok e); simpl; rewrite ?app_nil_r; reflexivity.
  - cbn [truthy ToString]. destruct (is_empty d) eqn:Hed; cbn [negb inventory snapshot photos];
      rewrite Hphoto.
    + destruct d; [|discriminate Hed].
      destruct (write_ok e); simpl; rewrite ?app_nil_r; reflexivity.
    + destruct (write_ok e); simpl; rewrite ?app_nil_r; reflexivity.
Qed.

Lemma serve_register_not_trimmable e name descr photo w :
  not_trimmable name \/ ((exists s, name = VString s /\ trim s <> []) /\ not_trimmable descr) ->
  serve e (Register name descr photo) w =
  (Ok internal_error,
   {| inventory := inventory w; snapshot := snapshot w; photos := photos_with e photo w |},
   upload_events e photo).
Proof.
  intros H. unfold serve, bind. rewrite upload_single_eq.
  assert (Hp : forall f w1, post_register e name descr f w1 = (Ok internal_error, w1, [])).
  { intros f w1. unfold post_register, try_catch, bind, call_trim, ret, respond,
      get_inventory_array, throw.
    destruct H as [[Ht Hns]|[(s & -> & Hs) [Ht Hns]]].
    - rewrite Ht. cbn [negb]. destruct name; try reflexivity. now destruct (Hns s).
    - cbn [truthy]. rewrite (registrable_truthy s Hs). cbn [negb].
      rewrite (is_empty_false _ Hs), Ht.
      destruct descr; try reflexivity. now destruct (Hns s0). }
  rewrite Hp. now rewrite app_nil_r.
Qed.

Lemma register_cases (name descr : JsVal) :
  name_refused name
  \/ registrable name descr
  \/ (not_trimmable name
      \/ ((exists s, name = VString s /\ trim s <> []) /\ not_trimmable descr)).
Proof.
  destruct (truthy name) eqn:Ht; [|left; now left].
  destruct name as [| |b|s|o]; try discriminate Ht.
  - right. right. left. split; [exact Ht|]. discriminate.
  - destruct (trim s) as [|c t] eqn:Hs; [left; right; eauto|].
    assert (Hgood : exists s0, VString s = VString s0 /\ trim s0 <> []).
    { exists s. split; [reflexivity|]. rewrite Hs. discriminate. }
    right. destruct (truthy descr) eqn:Hd; [|left; split; [exact Hgood|now left]].
    destruct descr as [| |b'|d|o'];
      try (right; right; split; [exact Hgood|split; [exact Hd|discriminate]]).
    left. split; [exact Hgood|]. right. eauto.
  - right. right. left. split; [exact Ht|]. discriminate.
Qed.

(** X4. Register always answers, with 201, 400 or 500.  It answers 201
    exactly when the name is a string that is not blank, the description is
    falsy or a string, and the snapshot is written; it answers 400 exactly
    when the name is falsy or a blank string. *)
Theorem register_outcomes e name descr photo w :
  let r := serve e (Register name descr photo) w in
  (answered 201 r <-> registrable name descr /\ write_ok e = true)
  /\ (answered 400 r <-> name_refused name)
  /\ (answered 201 r \/ answered 400 r \/ answered 500 r).
Proof.
  intros r. subst r.
  destruct (register_cases name descr) as [Href|[Hreg|Hbad]].
  - rewrite (serve_register_refused e name descr photo w Href).
    unfold answered. simpl. split; [|split; [tauto|auto]].
    split; [discriminate|]. intros [[(s & -> & Hs) _] _].
    destruct Href as [Hf|(s' & [= <-] & Hs')]; [|contradiction].
    simpl in Hf. rewrite (registrable_truthy s Hs) in Hf. discriminate Hf.
  - rewrite (serve_register_registrable e name descr photo w Hreg).
    destruct Hreg as [(s & -> & Hs) Hd].
    assert (Hnot : ~ name_refused (VString s)).
    { intros [Hf|(s' & [= <-] & Hs')]; [|contradiction].
      simpl in Hf. rewrite (registrable_truthy s Hs) in Hf. discriminate Hf. }
    destruct (write_ok e); unfold answered; simpl;
      (split; [|split]); try tauto; try (split; [discriminate|tauto]).
    + split; [intros _|reflexivity]. split; [|reflexivity]. split; eauto.
    + split; [discriminate|]. intros [_ H]. discriminate H.
  - rewrite (serve_register_not_trimmable e name descr photo w Hbad).
    unfold answered. simpl. split; [|split; [|auto]].
    + split; [discriminate|]. intros [[(s & -> & Hs) Hd] _].
      destruct Hbad as [[_ Hns]|[_ [Ht Hns]]]; [now destruct (Hns s)|].
      destruct Hd as [Hd|(d & ->)]; [congruence|now destruct (Hns d)].
    + split; [discriminate|]. intros Href.
      destruct Hbad as [[Ht Hns]|[(s & -> & Hs) _]].
      * destruct Href as [Hf|(s & -> & _)]; [congruence|now destruct (Hns s)].
      * destruct Href as [Hf|(s' & [= <-] & Hs')]; [|contradiction].
        simpl in Hf. rewrite (registrable_truthy s Hs) in Hf. discriminate Hf.
Qed.

Lemma generateId_push inv it :
  id it = generateId inv -> generateId (inv ++ [it]) = generateId inv + 1.
Proof.
  intros Hid.
  destruct (generateId_max (inv ++ [it])) as [Hin Hmax].
  { intros H. now apply app_nil in H as [_ ?]. }
  assert (Hit : id it ∈ ids (inv ++ [it])).
  { unfold ids. rewrite map_app. apply elem_of_app. right. apply list_elem_of_here. }
  apply Hmax in Hit.
  unfold ids in Hin. rewrite map_app in Hin. apply elem_of_app in Hin as [Hin|Hin].
  - apply generateId_above in Hin. lia.
  - apply list_elem_of_singleton in Hin. lia.
Qed.

(** ** Failed writes *)

(** X6. When the write of the snapshot fails, no handler unlinks a blob,
    and a request that changed the array is not answered with success. *)
Theorem failed_write_no_success e rq w :
  write_ok e = false ->
  let r := serve e rq w in
  (forall f, EvUnlink f ∉ events_of r)
  /\ (inventory (world_of r) <> inventory w -> ~ answered 200 r /\ ~ answered 201 r).
Proof.
  intros Hw r. subst r.
  assert (Hno : forall (ev : Event) (l : list Event),
             l = [] \/ (exists g, l = [EvStorePhoto g]) ->
             (forall g, ev <> EvStorePhoto g) -> ev ∉ l).
  { intros ev l [->|[g ->]] Hne Hin; [inversion Hin|].
    apply list_elem_of_singleton in Hin. now apply (Hne g). }
  destruct rq; crunch;
    (split; [intros; apply Hno; eauto; discriminate|]);
    intros Hch; split; intros Hans; try contradiction; try lia.
Qed.

(** ** Ids that no item has *)

(** X8. A request for an integer id that no item has (an integer of
    magnitude up to 2^53, where the number read is exactly the integer
    written) is answered 404 by Get, Update, Delete, GetPhoto, ReplacePhoto
    and Search; the array and the snapshot stay as they are, nothing is
    written or unlinked, and but for the upload of a ReplacePhoto nothing
    happens at all. *)
Theorem absent_id_not_found e rq v z w :
  request_id rq = Some v ->
  Number v = Int z ->
  Z.abs z <= 2 ^ 53 ->
  findItemById (inventory w) (Int z) = None ->
  let r := serve e rq w in
  answered 404 r
  /\ inventory (world_of r) = inventory w
  /\ snapshot (world_of r) = snapshot w
  /\ (forall items, EvWriteSnapshot items ∉ events_of r)
  /\ (forall f, EvUnlink f ∉ events_of r)
  /\ (stored_name e rq = None -> world_of r = w /\ events_of r = []).
Proof.
  intros Hid Hnum _ Hfind0 r. subst r.
  assert (Hnan : isNaN (Number v) = false) by now rewrite Hnum.
  assert (Hfind : findItemById (inventory w) (Number v) = None) by now rewrite Hnum.
  clear Hnum Hfind0.
  assert (Hno : forall (ev : Event) (l : list Event),
             l = [] \/ (exists g, l = [EvStorePhoto g]) ->
             (forall g, ev <> EvStorePhoto g) -> ev ∉ l).
  { intros ev l [->|[g ->]] Hne Hin; [inversion Hin|].
    apply list_elem_of_singleton in Hin. now apply (Hne g). }
  destruct rq; simpl in Hid; try discriminate Hid; injection Hid as <-;
    unfold serve, get_inventory_id, put_inventory_id, get_inventory_id_photo,
      put_inventory_id_photo, delete_inventory_id, post_search, bind, upload_single,
      get_inventory_array;
    try destruct photo; rewrite ?Hnan; cbn [fst snd inventory snapshot photos ret];
    rewrite ?findIndex_findItemById, ?Hfind;
    unfold item_not_found, photo_not_found, respond, ret, answered, result_of,
      world_of, events_of;
    cbn [fst snd inventory snapshot photos stored_name status fmap option_fmap option_map];
    (repeat split; try reflexivity; try discriminate;
     intros; apply Hno; eauto; discriminate).
Qed.

(** ** Requests that only read *)

(** X9. List, Get and GetPhoto, and Search when [has_photo] is not truthy,
    always answer and change nothing: the array, the snapshot file and the
    photo directory are the same afterwards and no file is touched. *)
Theorem reads_change_nothing e rq w :
  reads_only rq = true ->
  world_of (serve e rq w) = w
  /\ events_of (serve e rq w) = []
  /\ exists resp, result_of (serve e rq w) = Ok resp.
Proof.
  intros Hr. destruct rq; try discriminate Hr; simpl in Hr;
    try (apply negb_true_iff in Hr);
    crunch;
    try match goal with
        | H2 : truthy ?f && _ = true, Hf : truthy ?f = false |- _ =>
            rewrite Hf in H2; discriminate H2
        end;
    repeat split; eauto.
Qed.

(** X10. ReplacePhoto without a file changes nothing and is never answered
    200, only 400 or 404: 400 [Invalid id] for an id that is no number, 400
    [photo file is required] when an item is found, and 404 for an integer
    id (of magnitude up to 2^53) that no item has. *)
Theorem replace_photo_without_file e idtext w :
  let r := serve e (ReplacePhoto idtext None) w in
  let n := Number (VString idtext) in
  world_of r = w
  /\ events_of r = []
  /\ (answered 400 r \/ answered 404 r)
  /\ (isNaN n = true -> result_of r = Ok bad_id)
  /\ (forall k item,
        findItemById (inventory w) n = Some (k, item) ->
        result_of r = Ok {| status := 400;
                            payload := JError (lit "photo file is required") |})
  /\ (forall z,
        n = Int z -> Z.abs z <= 2 ^ 53 ->
        findItemById (inventory w) n = None ->
        result_of r = Ok {| status := 404; payload := JError (lit "Item not found") |}).
Proof.
  intros r n. subst r n.
  unfold serve, bind, upload_single, ret, put_inventory_id_photo.
  destruct (isNaN (Number (VString idtext))) eqn:Hnan.
  - unfold invalid_id, respond, ret, answered, result_of, world_of, events_of.
    cbn [fst snd status].
    repeat split; auto.
    + intros k item Hf. apply findItemById_Some in Hf as [_ Hn].
      rewrite Hn in Hnan. discriminate Hnan.
    + intros z Hz. rewrite Hz in Hnan. discriminate Hnan.
  - unfold bind, get_inventory_array. cbn [inventory fst snd].
    destruct (findItemById (inventory w) (Number (VString idtext))) as [[k item]|] eqn:Hf;
      unfold item_not_found, respond, ret, answered, result_of, world_of, events_of;
      cbn [fst snd status];
      repeat split; auto; try discriminate.
Qed.

(** ** Ids stay *)

(** X11. Only Register adds an item and only Delete removes one: every
    other request leaves the ids of the array, and their order, as they
    were. *)
Theorem ids_change_only_by_register_and_delete e rq w :
  is_register rq = false ->
  is_delete rq = false ->
  ids (inventory (world_of (serve e rq w))) = ids (inventory w)
  /\ length (inventory (world_of (serve e rq w))) = length (inventory w).
Proof.
  intros Hr Hd.
  assert (Hids : ids (inventory (world_of (serve e rq w))) = ids (inventory w)).
  { rewrite (serve_ids_no_delete e rq w Hd); [|rewrite Hr; discriminate].
    rewrite Hr. apply app_nil_r. }
  split; [exact Hids|].
  apply (f_equal length) in Hids. unfold ids in Hids. now rewrite !length_map in Hids.
Qed.

(** ** Round trips *)

Lemma find_none_fresh inv : findItemById inv (Int (generateId inv)) = None.
Proof.
  apply findItemById_None. intros it Hit [= Heq].
  assert (Hin : id it ∈ ids inv) by (unfold ids; apply list_elem_of_fmap; eauto).
  apply generateId_above in Hin. lia.
Qed.

(** The item just pushed is the one found under its id. *)
Lemma find_pushed inv it :
  id it = generateId inv ->
  findItemById (inv ++ [it]) (Int (id it)) = Some (length inv, it).
Proof.
  intros Hid. unfold findItemById.
  rewrite list_find_app_r.
  - simpl. rewrite decide_True; [reflexivity|].
    unfold id_is. simpl. apply Z.eqb_refl.
  - rewrite Hid. apply find_none_fresh.
Qed.

Lemma register_created e name descr photo w :
  answered 201 (serve e (Register name descr photo) w) ->
  let it := new_item e name descr photo w in
  serve e (Register name descr photo) w =
  (Ok {| status := 201; payload := JItem (item_view it) |},
   {| inventory := inventory w ++ [it]; snapshot := Some (inventory w ++ [it]);
      photos := photos_with e photo w |},
   upload_events e photo ++ [EvWriteSnapshot (inventory w ++ [it])]).
Proof.
  intros H it.
  destruct (register_cases name descr) as [Href|[Hreg|Hbad]].
  - rewrite (serve_register_refused e name descr photo w Href) in H. discriminate H.
  - rewrite (serve_register_registrable e name descr photo w Hreg) in H |- *.
    destruct (write_ok e); [reflexivity|discriminate H].
  - rewrite (serve_register_not_trimmable e name descr photo w Hbad) in H. discriminate H.
Qed.

Lemma storage_filename_not_empty e u : is_empty (storage_filename e u) = false.
Proof. reflexivity. Qed.

(** X5. A Register whose fields are fine but whose write of the snapshot
    fails is answered 500, yet the item has been pushed and stays in the
    array: Get finds it under its id, the next successful Register is given
    the id after it, and the write of that Register puts both items into the
    snapshot. *)
Theorem register_failed_write_keeps_item e e' e2 name descr photo name2 descr2 photo2 w :
  registrable name descr ->
  write_ok e = false ->
  registrable name2 descr2 ->
  write_ok e2 = true ->
  let r := serve e (Register name descr photo) w in
  let it := new_item e name descr photo w in
  let r2 := serve e2 (Register name2 descr2 photo2) (world_of r) in
  result_of r = Ok internal_error
  /\ inventory (world_of r) = inventory w ++ [it]
  /\ serve e' (Get (NumberToString (id it))) (world_of r)
     = (Ok {| status := 200; payload := JItem (item_view it) |}, world_of r, [])
  /\ answered 201 r2
  /\ assigned_id r2 = Some (id it + 1)
  /\ exists it2, snapshot (world_of r2) = Some (inventory w ++ [it; it2]).
Proof.
  intros Hreg Hw Hreg2 Hw2 r it r2.
  assert (Hr : r = (Ok internal_error,
                    {| inventory := inventory w ++ [it]; snapshot := snapshot w;
                       photos := photos_with e photo w |},
                    upload_events e photo)).
  { subst r it. now rewrite (serve_register_registrable e name descr photo w Hreg), Hw. }
  subst r2. rewrite Hr. unfold result_of, world_of. cbn [fst snd inventory].
  split; [reflexivity|]. split; [reflexivity|]. split.
  { unfold serve, get_inventory_id. cbn [Number].
    rewrite StringToNumber_NumberToString. cbn [isNaN].
    unfold bind, get_inventory_array. cbn [inventory].
    pose proof (find_pushed (inventory w) it eq_refl) as Hfp.
    rewrite Hfp. reflexivity. }
  rewrite (serve_register_registrable e2 name2 descr2 photo2 _ Hreg2), Hw2.
  cbn [fst snd inventory snapshot].
  split; [reflexivity|]. split.
  - unfold assigned_id, result_of. cbn [fst payload item_view v_id new_item id inventory].
    f_equal. apply (generateId_push (inventory w) it eq_refl).
  - eexists. rewrite <- app_assoc. reflexivity.
Qed.

(** X12. What a successful Register answers is what Get answers for the id
    it assigned: the same item, found under the decimal text of that id, and
    Get changes nothing. *)
Theorem register_then_get e e' name descr photo w :
  answered 201 (serve e (Register name descr photo) w) ->
  let r := serve e (Register name descr photo) w in
  exists v,
    result_of r = Ok {| status := 201; payload := JItem v |}
    /\ v_id v = generateId (inventory w)
    /\ serve e' (Get (NumberToString (v_id v))) (world_of r)
       = (Ok {| status := 200; payload := JItem v |}, world_of r, []).
Proof.
  intros H r. subst r. rewrite (register_created e name descr photo w H).
  set (it := new_item e name descr photo w).
  exists (item_view it). unfold result_of, world_of. cbn [fst snd].
  split; [reflexivity|]. split; [reflexivity|].
  unfold serve, get_inventory_id. cbn [Number v_id item_view].
  rewrite StringToNumber_NumberToString. cbn [isNaN].
  unfold bind, get_inventory_array. cbn [inventory].
  pose proof (find_pushed (inventory w) it eq_refl) as Hfp.
  rewrite Hfp. reflexivity.
Qed.

(** X13. A photo uploaded with a successful Register is served back
    unchanged: GetPhoto for the assigned id answers 200 with the very bytes
    of the upload, and the answer of Register carries the photo URL of that
    id. *)
Theorem uploaded_photo_is_served e e' name descr u w :
  answered 201 (serve e (Register name descr (Some u)) w) ->
  let r := serve e (Register name descr (Some u)) w in
  let i := generateId (inventory w) in
  assigned_id r = Some i
  /\ (exists v, result_of r = Ok {| status := 201; payload := JItem v |}
                /\ v_photoUrl v = Some (buildPhotoUrl i))
  /\ serve e' (GetPhoto (NumberToString i)) (world_of r)
     = (Ok {| status := 200; payload := Binary (content u) |}, world_of r, []).
Proof.
  intros H r i. subst r i. rewrite (register_created e name descr (Some u) w H).
  set (it := new_item e name descr (Some u) w).
  unfold assigned_id, result_of, world_of. cbn [fst snd].
  split; [reflexivity|]. split.
  { exists (item_view it). split; reflexivity. }
  unfold serve, get_inventory_id_photo. cbn [Number].
  rewrite StringToNumber_NumberToString. cbn [isNaN].
  unfold bind, get_inventory_array. cbn [inventory].
  pose proof (find_pushed (inventory w) it eq_refl) as Hfp.
  change (id it) with (generateId (inventory w)) in Hfp.
  rewrite Hfp.
  cbn [photoFilename it new_item fmap option_fmap option_map].
  rewrite storage_filename_not_empty. cbn [photos photos_with].
  rewrite lookup_insert_eq. reflexivity.
Qed.

(** X14. ReplacePhoto on an existing item, with a file and a successful
    write, is answered 200; it assigns the photo reference of that item and
    nothing else, stores the new blob and removes none (the blob the item
    had before is still in [photos/]); GetPhoto then serves the new bytes. *)
Theorem replace_photo_keeps_old_blob e e' idtext u w k item :
  findItemById (inventory w) (Number (VString idtext)) = Some (k, item) ->
  write_ok e = true ->
  let g := storage_filename e u in
  let item' := {| id := id item; inventory_name := inventory_name item;
                  description := description item; photoFilename := Some g |} in
  let r := serve e (ReplacePhoto idtext (Some u)) w in
  result_of r = Ok {| status := 200; payload := JItem (item_view item') |}
  /\ inventory (world_of r) = <[k := item']> (inventory w)
  /\ events_of r = [EvStorePhoto g; EvWriteSnapshot (<[k := item']> (inventory w))]
  /\ photos (world_of r) = <[g := content u]> (photos w)
  /\ (forall f, f <> g -> photos (world_of r) !! f = photos w !! f)
  /\ serve e' (GetPhoto idtext) (world_of r)
     = (Ok {| status := 200; payload := Binary (content u) |}, world_of r, []).
Proof.
  intros Hfind Hw g item' r.
  pose proof (findItemById_Some _ _ _ _ Hfind) as [Hk Hn].
  assert (Hr : r = (Ok {| status := 200; payload := JItem (item_view item') |},
                    {| inventory := <[k := item']> (inventory w);
                       snapshot := Some (<[k := item']> (inventory w));
                       photos := <[g := content u]> (photos w) |},
                    [EvStorePhoto g; EvWriteSnapshot (<[k := item']> (inventory w))])).
  { subst r. unfold serve, bind, upload_single, put_inventory_id_photo.
    rewrite Hn. cbn [isNaN]. unfold bind, get_inventory_array. cbn [inventory].
    rewrite <- Hn, Hfind. unfold set_inventory, saveInventory, respond, ret.
    rewrite Hw. cbn [inventory snapshot photos].
    rewrite (basename_storage_filename e u). reflexivity. }
  rewrite Hr. unfold result_of, world_of, events_of. cbn [fst snd inventory photos].
  repeat (split; [reflexivity|]). split.
  { intros f Hf. now rewrite lookup_insert_ne. }
  assert (Hfind' : findItemById (<[k := item']> (inventory w)) (Number (VString idtext))
                   = Some (k, item')).
  { now apply (findItemById_insert _ _ _ item). }
  unfold serve, get_inventory_id_photo. rewrite Hn. cbn [isNaN].
  unfold bind, get_inventory_array. cbn [inventory]. rewrite <- Hn, Hfind'.
  cbn [photoFilename item']. subst g. rewrite storage_filename_not_empty.
  cbn [photos]. rewrite lookup_insert_eq. reflexivity.
Qed.

(** With distinct ids, each item is the one found under its id. *)
Lemma find_own_id inv k it :
  NoDup (ids inv) ->
  inv !! k = Some it ->
  findItemById inv (Int (id it)) = Some (k, it).
Proof.
  intros Hnd Hk. unfold findItemById. apply list_find_Some.
  split; [exact Hk|]. split.
  - unfold id_is. simpl. apply Z.eqb_refl.
  - intros j y Hj Hlt Hy. unfold id_is in Hy. simpl in Hy. apply Z.eqb_eq in Hy.
    assert (j = k); [|lia].
    eapply NoDup_lookup; [exact Hnd| |]; unfold ids; rewrite list_lookup_fmap.
    + rewrite Hj. simpl. reflexivity.
    + rewrite Hk. simpl. now rewrite Hy.
Qed.

(** X15. In a reachable state List and Get agree: each entry of the
    listing is exactly what Get answers for the id of that entry. *)
Theorem list_and_get_agree e e' w v :
  reachable w ->
  (exists vs, result_of (serve e List w) = Ok {| status := 200; payload := JList vs |}
              /\ v ∈ vs) ->
  serve e' (Get (NumberToString (v_id v))) w
  = (Ok {| status := 200; payload := JItem v |}, w, []).
Proof.
  intros Hr (vs & Hres & Hv).
  injection Hres as <-.
  apply list_elem_of_fmap in Hv as (it & -> & Hit).
  apply list_elem_of_lookup in Hit as [k Hk].
  apply reachable_distinct_ids in Hr as [[Hnd _] _].
  unfold serve, get_inventory_id. cbn [Number v_id item_view].
  rewrite StringToNumber_NumberToString. cbn [isNaN].
  unfold bind, get_inventory_array. cbn [inventory].
  rewrite (find_own_id _ _ _ Hnd Hk). destruct w; reflexivity.
Qed.

(** X16. Update is idempotent: the same Update once more leaves the array
    as the first one left it. *)
Theorem update_twice e1 e2 idtext name descr w :
  inventory (world_of (serve e2 (Update idtext name descr)
                         (world_of (serve e1 (Update idtext name descr) w))))
  = inventory (world_of (serve e1 (Update idtext name descr) w)).
Proof.
  change (inventory (world_of (put_inventory_id e2 idtext name descr
                                 (world_of (put_inventory_id e1 idtext name descr w))))
          = inventory (world_of (put_inventory_id e1 idtext name descr w))).
  set (n := Number (VString idtext)).
  assert (H0 : forall e w1,
            isNaN n = true \/ findItemById (inventory w1) n = None ->
            inventory (world_of (put_inventory_id e idtext name descr w1)) = inventory w1).
  { intros e w1 H. unfold put_inventory_id. fold n.
    destruct (isNaN n); [reflexivity|]. destruct H as [H|H]; [discriminate H|].
    unfold bind, get_inventory_array. cbn [inventory]. now rewrite H. }
  assert (H1 : forall e w1 k item,
            findItemById (inventory w1) n = Some (k, item) ->
            inventory (world_of (put_inventory_id e idtext name descr w1))
            = <[k := {| id := id item;
                        inventory_name := patched (inventory_name item) name;
                        description := patched (description item) descr;
                        photoFilename := photoFilename item |}]> (inventory w1)).
  { intros e w1 k item Hfind.
    pose proof (findItemById_Some _ _ _ _ Hfind) as [_ Hn].
    unfold put_inventory_id. fold n. rewrite Hn. cbn [isNaN].
    unfold bind, get_inventory_array. cbn [inventory]. rewrite <- Hn, Hfind.
    unfold set_inventory, saveInventory, respond, ret, world_of.
    destruct item as [i nm ds ph].
    destruct name, descr; destruct (write_ok e); reflexivity. }
  destruct (isNaN n) eqn:Hnan; [rewrite !H0; auto|].
  destruct (findItemById (inventory w) n) as [[k item]|] eqn:Hfind.
  - rewrite (H1 e1 w k item Hfind).
    set (item2 := {| id := id item;
                     inventory_name := patched (inventory_name item) name;
                     description := patched (description item) descr;
                     photoFilename := photoFilename item |}).
    assert (Hfind2 : findItemById
                       (inventory (world_of (put_inventory_id e1 idtext name descr w))) n
                     = Some (k, item2)).
    { rewrite (H1 e1 w k item Hfind). now apply (findItemById_insert _ _ _ item). }
    rewrite (H1 e2 _ k item2 Hfind2), (H1 e1 w k item Hfind). fold item2.
    rewrite list_insert_insert_eq. f_equal.
    subst item2. destruct name, descr; reflexivity.
  - rewrite (H0 e2); [reflexivity|]. right. rewrite (H0 e1); auto.
Qed.

(** ** Generated file names *)

Lemma storage_filename_no_slash e u : no_slash (storage_filename e u).
Proof.
  unfold storage_filename, no_slash.
  repeat apply Forall_app_2;
    try apply NumberToString_no_slash;
    try (repeat constructor; discriminate).
  destruct (is_empty (Path.extname (originalname u)));
    [repeat constructor; discriminate|apply extname_no_slash].
Qed.

(** X17. Whatever the name of the uploaded file, directories and dots
    included, the name multer stores it under starts with [photo_], has no
    [/] in it, and is its own [path.basename]: the reference kept in the item
    is the name of the file written. *)
Theorem generated_name_is_plain e u :
  startsWith (storage_filename e u) (lit "photo_") = true
  /\ no_slash (storage_filename e u)
  /\ Path.basename (storage_filename e u) = storage_filename e u.
Proof.
  split; [apply startsWith_app|].
  split; [apply storage_filename_no_slash|apply basename_storage_filename].
Qed.

(** ** Routing: the guards of the known paths and the fallback *)

(** The handlers never answer 405, nor with the body of the fallback. *)
Lemma serve_not_guard_answer e rq w resp :
  result_of (serve e rq w) = Ok resp ->
  resp <> method_not_allowed /\ resp <> not_found.
Proof.
  intros H.
  assert (Hgoal : status resp <> 405
                  /\ payload resp <> JError (lit "Not Found")).
  { destruct rq; crunch; simplify_eq; (split; [simpl; lia|]); simpl; try discriminate;
      intros Heq; injection Heq as Heq; vm_compute in Heq; discriminate Heq. }
  destruct Hgoal as [Hs Hp]. split; intros ->; [now apply Hs|now apply Hp].
Qed.

Lemma answer_eq (m : M Response) w :
  answer m w =
  (match result_of (m w) with Ok r => Ok (Sent r) | Throw x => Throw x end,
   world_of (m w), events_of (m w)).
Proof.
  unfold answer, bind, ret, result_of, world_of, events_of.
  destruct (m w) as [[[r|x] w1] ev]; simpl; [now rewrite app_nil_r|reflexivity].
Qed.

Lemma route_handler_not_405 e h w :
  result_of (route_handler e h w) <> Ok (Sent method_not_allowed).
Proof.
  unfold route_handler.
  destruct (route h), (method h); try discriminate;
    rewrite answer_eq; unfold result_of at 1; cbn [fst];
    match goal with
    | |- context [result_of (serve ?e ?rq ?w)] =>
        pose proof (serve_not_guard_answer e rq w) as Hs;
        destruct (result_of (serve e rq w)) as [r|x]; [|discriminate];
        destruct (Hs r eq_refl) as [H1 _]; congruence
    end.
Qed.

Lemma route_handler_found e h w :
  method h ∈ allowed (route h) ->
  result_of (route_handler e h w) <> Ok (Sent not_found).
Proof.
  unfold route_handler. intros Hin.
  destruct (route h), (method h);
    try (exfalso; simpl in Hin;
         repeat (apply elem_of_cons in Hin as [Hin|Hin]; [discriminate Hin|]);
         inversion Hin; fail);
    try discriminate;
    rewrite answer_eq; unfold result_of at 1; cbn [fst];
    match goal with
    | |- context [result_of (serve ?e ?rq ?w)] =>
        pose proof (serve_not_guard_answer e rq w) as Hs;
        destruct (result_of (serve e rq w)) as [r|x]; [|discriminate];
        destruct (Hs r eq_refl) as [_ H2]; congruence
    end.
Qed.

(** X18. A GET or HEAD for a path that names a file of the source
    directory is answered with that file by the static middleware, before
    any guard, and changes nothing.  Every other request on a known path is
    answered 405 [Method Not Allowed] exactly when its method is not one the
    path allows; such a request changes nothing and touches no file, even
    if it carries a photo; and a method the path allows always has a
    handler: it never gets the 404 of the fallback. *)
Theorem wrong_method_405 e h w :
  route h <> OtherPath ->
  (forall f, served_by_static h = Some f -> handle e h w = (Ok (SentFile f), w, []))
  /\ (served_by_static h = None ->
      (result_of (handle e h w) = Ok (Sent method_not_allowed)
       <-> method h ∉ allowed (route h))
      /\ (method h ∉ allowed (route h) ->
          world_of (handle e h w) = w /\ events_of (handle e h w) = [])
      /\ (method h ∈ allowed (route h) ->
          result_of (handle e h w) <> Ok (Sent not_found))).
Proof.
  intros Hknown. split.
  { intros f Hf. unfold handle. now rewrite Hf. }
  intros Hstatic.
  assert (Hh : handle e h w =
               if bool_decide (method h ∈ allowed (route h)) then route_handler e h w
               else (Ok (Sent method_not_allowed), w, [])).
  { unfold handle. rewrite Hstatic. unfold guarded. destruct (route h) eqn:Hr;
      try (destruct (bool_decide _); reflexivity). now destruct Hknown. }
  rewrite Hh. clear Hh.
  destruct (bool_decide (method h ∈ allowed (route h))) eqn:Hb.
  - apply bool_decide_eq_true in Hb. split; [|split].
    + split; [intros H; now apply route_handler_not_405 in H|contradiction].
    + contradiction.
    + intros _. now apply route_handler_found.
  - apply bool_decide_eq_false in Hb. split; [|split].
    + split; [intros _; exact Hb|reflexivity].
    + intros _. split; reflexivity.
    + contradiction.
Qed.

(** * The further properties at concrete requests *)

Lemma reachable_ids_increasing_witness :
  reachable Scenario.gap
  /\ ids (inventory Scenario.gap) = [1; 3]
  /\ increasing_ids (inventory Scenario.gap).
Proof.
  assert (Hr : reachable Scenario.gap) by apply reachable_run, started_reachable.
  split; [exact Hr|]. split; [reflexivity|].
  exact (proj1 (proj1 (reachable_ids_increasing Scenario.gap Hr))).
Defined.

Lemma reachable_names_trimmed_witness :
  reachable Scenario.laptop
  /\ Scenario.laptop_item ∈ inventory Scenario.laptop
  /\ trim (lit "Laptop") = lit "Laptop".
Proof.
  assert (Hr : reachable Scenario.laptop) by apply reachable_run, started_reachable.
  assert (Hin : Scenario.laptop_item ∈ inventory Scenario.laptop)
    by apply list_elem_of_here.
  split; [exact Hr|]. split; [exact Hin|].
  exact (reachable_names_trimmed Scenario.laptop Scenario.laptop_item Hr Hin).
Defined.

Lemma restart_restores_array_witness :
  let rs := [Scenario.register "Laptop"; Scenario.register "Mouse";
             (Scenario.env, Delete (lit "1"))] in
  let w := run rs (world_of (start Scenario.env (fresh ∅))) in
  writes_succeed rs
  /\ ids (inventory w) = [2]
  /\ start Cases.disk_full w = (Ok tt, w, []).
Proof.
  intros rs w.
  assert (Hrs : writes_succeed rs).
  { intros p Hp.
    repeat (apply elem_of_cons in Hp as [->|Hp]; [reflexivity|]).
    inversion Hp. }
  split; [exact Hrs|]. split; [reflexivity|].
  exact (proj2 (restart_restores_array Scenario.env (fresh ∅) rs Cases.disk_full
                  eq_refl Hrs)).
Defined.

Lemma register_failed_write_keeps_item_witness :
  let r := serve Cases.disk_full (Register (VString (lit "Mouse")) VUndefined None)
             Scenario.laptop in
  let r2 := serve Scenario.env (Register (VString (lit "Screen")) VUndefined None)
              (world_of r) in
  registrable (VString (lit "Mouse")) VUndefined
  /\ registrable (VString (lit "Screen")) VUndefined
  /\ result_of r = Ok internal_error
  /\ ids (inventory (world_of r)) = [1; 2]
  /\ assigned_id r2 = Some 3.
Proof.
  intros r r2.
  assert (Hreg : forall t, trim (lit t) <> [] -> registrable (VString (lit t)) VUndefined).
  { intros t Ht. split; [|now left]. exists (lit t). split; [reflexivity|exact Ht]. }
  assert (H1 : registrable (VString (lit "Mouse")) VUndefined) by (apply Hreg; discriminate).
  assert (H2 : registrable (VString (lit "Screen")) VUndefined) by (apply Hreg; discriminate).
  split; [exact H1|]. split; [exact H2|].
  destruct (register_failed_write_keeps_item Cases.disk_full Scenario.env Scenario.env
              (VString (lit "Mouse")) VUndefined None
              (VString (lit "Screen")) VUndefined None Scenario.laptop
              H1 eq_refl H2 eq_refl)
    as (Hres & _ & _ & _ & Hid & _).
  split; [exact Hres|]. split; [reflexivity|]. exact Hid.
Defined.

Lemma failed_write_no_success_witness :
  let r := serve Cases.disk_full (Update (lit "1") (VString (lit "Desktop")) VUndefined)
             Scenario.laptop in
  write_ok Cases.disk_full = false
  /\ inventory (world_of r) <> inventory Scenario.laptop
  /\ ~ answered 200 r.
Proof.
  intros r.
  destruct (failed_write_no_success Cases.disk_full
              (Update (lit "1") (VString (lit "Desktop")) VUndefined) Scenario.laptop
              eq_refl)
    as (_ & Hno).
  assert (Hch : inventory (world_of r) <> inventory Scenario.laptop) by discriminate.
  split; [reflexivity|]. split; [exact Hch|]. exact (proj1 (Hno Hch)).
Defined.

Lemma absent_id_not_found_witness :
  Number (VString (lit "7")) = Int 7
  /\ findItemById (inventory Scenario.laptop) (Int 7) = None
  /\ answered 404 (serve Scenario.env (Delete (lit "7")) Scenario.laptop)
  /\ world_of (serve Scenario.env (Delete (lit "7")) Scenario.laptop) = Scenario.laptop.
Proof.
  assert (Hfind : findItemById (inventory Scenario.laptop) (Int 7) = None) by reflexivity.
  assert (Hle : Z.abs 7 <= 2 ^ 53) by (vm_compute; discriminate).
  destruct (absent_id_not_found Scenario.env (Delete (lit "7")) (VString (lit "7")) 7
              Scenario.laptop eq_refl eq_refl Hle Hfind)
    as (Hans & _ & _ & _ & _ & Hsame).
  split; [reflexivity|]. split; [exact Hfind|]. split; [exact Hans|].
  exact (proj1 (Hsame eq_refl)).
Defined.

Lemma reads_change_nothing_witness :
  reads_only (Search (VString (lit "1")) (VString [])) = true
  /\ world_of (serve Scenario.env (Search (VString (lit "1")) (VString [])) Scenario.camera)
     = Scenario.camera.
Proof.
  split; [reflexivity|].
  exact (proj1 (reads_change_nothing Scenario.env
                  (Search (VString (lit "1")) (VString [])) Scenario.camera eq_refl)).
Defined.

Lemma ids_change_only_by_register_and_delete_witness :
  let rq := ReplacePhoto (lit "1") (Some Cases.portrait) in
  is_register rq = false
  /\ is_delete rq = false
  /\ ids (inventory (world_of (serve Cases.later rq Scenario.camera)))
     = ids (inventory Scenario.camera).
Proof.
  intros rq. split; [reflexivity|]. split; [reflexivity|].
  exact (proj1 (ids_change_only_by_register_and_delete Cases.later rq Scenario.camera
                  eq_refl eq_refl)).
Defined.

Lemma register_then_get_witness :
  let r := serve Scenario.env (Register (VString (lit "Mouse")) VUndefined None)
             Scenario.laptop in
  answered 201 r
  /\ exists v,
       result_of r = Ok {| status := 201; payload := JItem v |}
       /\ v_id v = 2
       /\ result_of (serve Scenario.env (Get (lit "2")) (world_of r))
          = Ok {| status := 200; payload := JItem v |}.
Proof.
  intros r. split; [reflexivity|].
  destruct (register_then_get Scenario.env Scenario.env (VString (lit "Mouse"))
              VUndefined None Scenario.laptop eq_refl)
    as (v & Hres & Hid & Hget).
  exists v. split; [exact Hres|]. split; [exact Hid|].
  rewrite Hid in Hget.
  change (lit "2") with (NumberToString (generateId (inventory Scenario.laptop))).
  subst r. now rewrite Hget.
Defined.

Lemma uploaded_photo_is_served_witness :
  let r := serve Scenario.env
             (Register (VString (lit "Camera")) VUndefined (Some Scenario.picture))
             Scenario.laptop in
  answered 201 r
  /\ assigned_id r = Some 2
  /\ result_of (serve Scenario.env (GetPhoto (lit "2")) (world_of r))
     = Ok {| status := 200; payload := Binary (content Scenario.picture) |}.
Proof.
  intros r. split; [reflexivity|].
  destruct (uploaded_photo_is_served Scenario.env Scenario.env (VString (lit "Camera"))
              VUndefined Scenario.picture Scenario.laptop eq_refl)
    as (Hid & _ & Hget).
  split; [exact Hid|].
  change (lit "2") with (NumberToString (generateId (inventory Scenario.laptop))).
  subst r. now rewrite Hget.
Defined.

Lemma replace_photo_keeps_old_blob_witness :
  let r := serve Cases.later (ReplacePhoto (lit "1") (Some Cases.portrait))
             Scenario.camera in
  findItemById (inventory Scenario.camera) (Number (VString (lit "1")))
    = Some (0%nat, Scenario.camera_item)
  /\ answered 200 r
  /\ photos (world_of r) !! lit "photo_1762128000000-424242.png"
     = Some (content Scenario.picture)
  /\ result_of (serve Scenario.env (GetPhoto (lit "1")) (world_of r))
     = Ok {| status := 200; payload := Binary (content Cases.portrait) |}.
Proof.
  intros r.
  assert (Hfind : findItemById (inventory Scenario.camera) (Number (VString (lit "1")))
                  = Some (0%nat, Scenario.camera_item)) by reflexivity.
  destruct (replace_photo_keeps_old_blob Cases.later Scenario.env (lit "1")
              Cases.portrait Scenario.camera 0 Scenario.camera_item Hfind eq_refl)
    as (Hres & _ & _ & _ & Hold & Hget).
  subst r. split; [exact Hfind|]. split; [reflexivity|]. split.
  - rewrite Hold; [reflexivity|discriminate].
  - now rewrite Hget.
Defined.

Lemma list_and_get_agree_witness :
  reachable Scenario.camera
  /\ result_of (serve Scenario.env (Get (lit "1")) Scenario.camera)
     = Ok {| status := 200; payload := JItem (item_view Scenario.camera_item) |}.
Proof.
  assert (Hr : reachable Scenario.camera) by apply reachable_run, started_reachable.
  split; [exact Hr|].
  assert (Hlist : exists vs,
            result_of (serve Scenario.env List Scenario.camera)
            = Ok {| status := 200; payload := JList vs |}
            /\ item_view Scenario.camera_item ∈ vs).
  { exists [item_view Scenario.camera_item]. split; [reflexivity|apply list_elem_of_here]. }
  pose proof (list_and_get_agree Scenario.env Scenario.env Scenario.camera
                (item_view Scenario.camera_item) Hr Hlist) as Hget.
  change (NumberToString (v_id (item_view Scenario.camera_item))) with (lit "1") in Hget.
  now rewrite Hget.
Defined.

Lemma wrong_method_405_witness :
  route Cases.head_inventory <> OtherPath
  /\ served_by_static Cases.head_inventory = None
  /\ result_of (handle Scenario.env Cases.head_inventory Scenario.laptop)
     = Ok (Sent method_not_allowed)
  /\ world_of (handle Scenario.env Cases.head_inventory Scenario.laptop) = Scenario.laptop.
Proof.
  assert (Hk : route Cases.head_inventory <> OtherPath) by discriminate.
  destruct (wrong_method_405 Scenario.env Cases.head_inventory Scenario.laptop Hk)
    as (_ & Hguard).
  destruct (Hguard eq_refl) as (Hiff & Hsame & _).
  assert (Hnot : method Cases.head_inventory ∉ allowed (route Cases.head_inventory)).
  { intros Hin. simpl in Hin. apply list_elem_of_singleton in Hin. discriminate Hin. }
  split; [exact Hk|]. split; [reflexivity|]. split; [now apply Hiff|].
  exact (proj1 (Hsame Hnot)).
Defined.
